(** * auto_tts: chunking, completion detection, download and assembly

    A shallow embedding of [RVC/auto_tts.py] and the properties of its
    text splitter, its polling loops, its artifact naming, its assembler
    and its best-effort cleanup. *)

From Stdlib Require Import ZArith NArith List String Ascii Bool Lia.
From Stdlib Require Import Permutation Sorted Mergesort Orders DecimalString.
From Stdlib Require Import DecimalNat DecimalFacts.
From stdpp Require Import base gmap strings.
Import ListNotations.

Local Open Scope Z_scope.

(** ** Python values *)

(** A Python [str] is a sequence of Unicode code points. *)
Definition char := N.
Definition str := list char.

(** Text literals for examples: the code points of an ASCII literal. *)
Definition py (s : string) : str :=
  List.map N_of_ascii (list_ascii_of_string s).

(** [str.isspace] on one code point, which is also what [\s] matches in a
    [str] pattern: the ASCII controls 9..13 and 28..31, the space, NEL,
    NBSP and the Unicode space separators. *)
Definition isspace (c : char) : bool :=
  (((9 <=? c) && (c <=? 13)) || ((28 <=? c) && (c <=? 32))
   || (c =? 133) || (c =? 160) || (c =? 5760)
   || ((8192 <=? c) && (c <=? 8202))
   || (c =? 8232) || (c =? 8233) || (c =? 8239) || (c =? 8287)
   || (c =? 12288))%N.

(** The character class [[.!?]] of the sentence pattern. *)
Definition is_sentence_end (c : char) : bool :=
  ((c =? 46) || (c =? 33) || (c =? 63))%N.

Definition SPACE : char := 32%N.

(** The exceptions of the program: Python's own, Selenium's
    ([TimeoutException], [NoSuchElementException]) and pydub's
    ([CouldntDecodeError]). [SystemExit] is the only one here that is not
    an [Exception]. *)
Inductive exn :=
| ValueError
| IndexError
| TimeoutException
| NoSuchElementException
| TimeoutError (msg : string)
| RuntimeError (msg : string)
| FileNotFoundError (msg : string)
| OSError
| CouldntDecodeError
| SystemExit (code : Z).

Definition is_Exception (e : exn) : bool :=
  match e with SystemExit _ => false | _ => true end.

Inductive result (A : Type) :=
| Ok (a : A)
| Raise (e : exn).
Arguments Ok {A} a.
Arguments Raise {A} e.

Definition bind {A B} (m : result A) (k : A -> result B) : result B :=
  match m with
  | Ok a => k a
  | Raise e => Raise e
  end.

Notation "'do' x <- m ; k" := (bind m (fun x => k))
  (at level 10, x name, m at level 100, k at level 200).
Notation "'do' ' p <- m ; k" := (bind m (fun x => match x with p => k end))
  (at level 10, p pattern, m at level 100, k at level 200).

(** A [for] loop whose body may raise. *)
Fixpoint for_each {A S} (body : S -> A -> result S) (xs : list A) (s : S)
  : result S :=
  match xs with
  | [] => Ok s
  | x :: xs' => do s' <- body s x; for_each body xs' s'
  end.

Definition len {A} (s : list A) : Z := Z.of_nat (List.length s).

(** Truthiness of a sequence: non-empty. *)
Definition truthy {A} (s : list A) : bool :=
  match s with [] => false | _ => true end.

(** [range(start, stop, step)]: a zero step raises [ValueError]. *)
Definition range_len (lo hi step : Z) : Z :=
  if lo <? hi then (hi - lo - 1) / step + 1 else 0.

Definition py_range (start stop step : Z) : result (list Z) :=
  if step =? 0 then Raise ValueError
  else
    let n := if 0 <? step then range_len start stop step
             else range_len stop start (- step) in
    Ok (List.map (fun k => start + Z.of_nat k * step)
                 (List.seq 0 (Z.to_nat n))).

(** Slice bounds: a negative bound counts from the end, and both bounds
    are clipped to the sequence. *)
Definition clamp_index (n i : Z) : Z :=
  if i <? 0 then Z.max 0 (i + n) else Z.min i n.

(** [s[i:j]] *)
Definition py_slice {A} (s : list A) (i j : Z) : list A :=
  let lo := clamp_index (len s) i in
  let hi := clamp_index (len s) j in
  firstn (Z.to_nat (hi - lo)) (skipn (Z.to_nat lo) s).

(** [s[i]]: out of range raises [IndexError]. *)
Definition py_index {A} (s : list A) (i : Z) : result A :=
  let k := if i <? 0 then i + len s else i in
  if (0 <=? k) && (k <? len s) then
    match nth_error s (Z.to_nat k) with
    | Some x => Ok x
    | None => Raise IndexError
    end
  else Raise IndexError.

(** [str.strip()] *)
Fixpoint lstrip (s : str) : str :=
  match s with
  | [] => []
  | c :: s' => if isspace c then lstrip s' else s
  end.

Definition rstrip (s : str) : str := rev (lstrip (rev s)).

Definition strip (s : str) : str := rstrip (lstrip s).

(** ** The splitter *)

(** [re.compile(r"(?<=[.!?])\s+").split(text)].

    A match starts at a whitespace character whose predecessor is one of
    [.], [!], [?]; since that predecessor is not whitespace, the match
    starts a whitespace run, and the greedy [\s+] takes the whole run.
    The scanner is either inside a piece, remembering whether the last
    character was a sentence end, or inside a separator. *)
Inductive scan := InPiece (after_end : bool) | InSeparator.

Fixpoint re_split_from (st : scan) (piece : str) (s : str) : list str :=
  match s with
  | [] => [rev piece]
  | c :: s' =>
      match st with
      | InSeparator =>
          if isspace c then re_split_from InSeparator piece s'
          else re_split_from (InPiece (is_sentence_end c)) (c :: piece) s'
      | InPiece after_end =>
          if after_end && isspace c
          then rev piece :: re_split_from InSeparator [] s'
          else re_split_from (InPiece (is_sentence_end c)) (c :: piece) s'
      end
  end.

Definition sentence_end_re_split (text : str) : list str :=
  re_split_from (InPiece false) [] text.

(** One iteration of [for sent in sentences], on [(chunks, current_chunk)]. *)
Definition split_step (chunk_size : Z) (st : list str * str) (sent0 : str)
  : result (list str * str) :=
  let '(chunks, current_chunk) := st in
  let sent := strip sent0 in
  if negb (truthy sent) then Ok st
  else if len current_chunk + len sent + 1 >? chunk_size then
    if truthy current_chunk then
      Ok (chunks ++ [strip current_chunk], sent)
    else
      do starts <- py_range 0 (len sent) chunk_size;
      let parts := List.map (fun i => py_slice sent i (i + chunk_size)) starts in
      let chunks' := chunks ++ py_slice parts 0 (-1) in
      do seed <- py_index parts (-1);
      Ok (chunks', seed)
  else
    Ok (chunks,
        current_chunk ++ (if truthy current_chunk then [SPACE] else []) ++ sent).

Definition split_into_chunks (text : str) (chunk_size : Z)
  : result (list str) :=
  let sentences := sentence_end_re_split text in
  do '(chunks, current_chunk) <- for_each (split_step chunk_size) sentences ([], []);
  if truthy (strip current_chunk) then Ok (chunks ++ [strip current_chunk])
  else if truthy (strip text) then Ok (chunks ++ [strip text])
  else Ok chunks.

(** ** Effects: a trace of events and an exception *)

Inductive message :=
| InfoSwitchWindow        (* [INFO] waiting three seconds *)
| InfoSplit (n : nat)     (* [INFO] Split input into n chunk(s) *)
| OkWroteFinal            (* [OK] Wrote final audio to ... *)
| InfoTempRemoved         (* [INFO] temporary folder removed *)
| WarnRemoveFailed        (* [WARN] could not remove the folder *)
| WarnLeftBehind.         (* [WARN] left the folder; remove it by hand *)

Inductive event :=
| Print (m : message)
| Sleep (milliseconds : Z)
| SetText (chunk : str)
| Click (xpath : string)
| ListDir
| Rename (src dst : string)
| Decode (name : string)
| Rmtree
| Quit.

Definition M (A : Type) : Type := list event * result A.

Definition ret {A} (a : A) : M A := ([], Ok a).
Definition raise {A} (e : exn) : M A := ([], Raise e).
Definition emit (ev : event) : M unit := ([ev], Ok tt).
Definition lift {A} (r : result A) : M A := ([], r).

Definition mbindM {A B} (m : M A) (k : A -> M B) : M B :=
  match m with
  | (log, Ok a) => let '(log', r) := k a in (log ++ log', r)
  | (log, Raise e) => (log, Raise e)
  end.

Notation "'run' x <- m ; k" := (mbindM m (fun x => k))
  (at level 10, x name, m at level 100, k at level 200).
Notation "m ;; k" := (mbindM m (fun _ => k))
  (at level 100, k at level 200, right associativity).

(** [try: m except ...: handler], the handler choosing what it catches. *)
Definition try_except {A} (m : M A) (handler : exn -> option (M A)) : M A :=
  match m with
  | (log, Raise e) =>
      match handler e with
      | Some h => let '(log', r) := h in (log ++ log', r)
      | None => m
      end
  | _ => m
  end.

(** [try: m finally: f] *)
Definition try_finally {A} (m : M A) (f : M unit) : M A :=
  let '(log, r) := m in
  match f with
  | (log', Ok _) => (log ++ log', r)
  | (log', Raise e) => (log ++ log', Raise e)
  end.

Definition trace {A} (m : M A) : list event := fst m.
Definition outcome {A} (m : M A) : result A := snd m.

(** [vprint]: prints only when [VERBOSE] is set. *)
Definition vprint (VERBOSE : bool) (m : message) : M unit :=
  if VERBOSE then emit (Print m) else ret tt.

(** ** The page and the completion detector *)

(** The XPath constants, opaque to the program; the quotes around the
    [id] values are left out. *)
Definition TEXTAREA_XPATH : string := "//*[@id=component-353]/label/div[2]/textarea".
Definition GENERATE_BTN_XPATH : string := "//*[@id=component-392]".
Definition DOWNLOAD_ANCHOR_XPATH : string := "//*[@id=component-395]/div[2]/a".
Definition DOWNLOAD_BTN_CLICK_XPATH : string := "//*[@id=component-395]/div[2]/a/button".
Definition MAIN_AUDIO_XPATH : string := "//*[@id=waveform]/div//audio".
Definition HIDDEN_AUDIO_XPATH : string := "//*[@id=component-395]/audio".

(** What [driver.find_element(By.XPATH, xpath).get_attribute(attr)] does
    on a page: it raises, or it returns the attribute, [None] when the
    element has no such attribute. *)
Definition page := string -> string -> result (option string).

Definition get_attr_safe (driver : page) (xpath attr : string)
  : option string :=
  match driver xpath attr with
  | Ok v => v
  | Raise _ => None
  end.

(** Truthiness of [None] and of a string. *)
Definition attr_truthy (v : option string) : bool :=
  match v with
  | Some s => negb (String.eqb s "")
  | None => false
  end.

(** [a != b] on values that are [None] or strings. *)
Definition attr_neq (a b : option string) : bool :=
  match a, b with
  | Some x, Some y => negb (String.eqb x y)
  | None, None => false
  | _, _ => true
  end.

(** The closure [new_audio_ready] with the three snapshots it captures.
    [get_attr_safe] never raises, so the outer [try] of the source has
    nothing to catch. *)
Definition new_audio_ready
  (prev_src_main prev_src_hidden prev_href_download : option string)
  (driver : page) : bool :=
  let cur_main := get_attr_safe driver MAIN_AUDIO_XPATH "src" in
  if attr_truthy cur_main && attr_neq cur_main prev_src_main then true
  else
    let cur_hidden := get_attr_safe driver HIDDEN_AUDIO_XPATH "src" in
    if attr_truthy cur_hidden && attr_neq cur_hidden prev_src_hidden then true
    else
      let cur_href := get_attr_safe driver DOWNLOAD_ANCHOR_XPATH "href" in
      if attr_truthy cur_href && attr_neq cur_href prev_href_download then true
      else false.

(** [WebDriverWait(driver, timeout, poll_frequency=1.0).until(method)].

    Time is counted by the sleeps of the trace: a poll takes no time and a
    sleep lasts exactly its argument. Selenium polls, returns on a truthy
    value, sleeps one second, and gives up once the clock has passed
    [timeout]: polls happen at seconds [0, 1, ..., timeout]. [obs k] is
    what the [k]-th poll observes; the result is the index of the
    successful poll. *)
Fixpoint until_from {A} (method : A -> bool) (obs : nat -> A)
  (k remaining : nat) : M nat :=
  match remaining with
  | O => raise TimeoutException
  | S r =>
      if method (obs k) then ret k
      else emit (Sleep 1000) ;; until_from method obs (S k) r
  end.

Definition WebDriverWait_until {A} (timeout : Z) (method : A -> bool)
  (obs : nat -> A) : M nat :=
  until_from method obs 0 (Z.to_nat timeout + 1).

(** ** The download directory *)

(** A directory listing: the names with their [st_mtime]. *)
Definition listing := list (string * Z).

Definition listdir (d : listing) : list string := List.map fst d.

Fixpoint st_mtime (d : listing) (f : string) : Z :=
  match d with
  | [] => 0
  | (g, t) :: d' => if String.eqb g f then t else st_mtime d' f
  end.

(** [s.endswith(suffix)] *)
Definition endswith (s suffix : string) : bool :=
  let n := String.length s in
  let m := String.length suffix in
  (m <=? n)%nat && String.eqb (String.substring (n - m) m s) suffix.

(** [max(x :: xs, key=key)]: the first of the largest. *)
Fixpoint py_max {A} (key : A -> Z) (best : A) (xs : list A) : A :=
  match xs with
  | [] => best
  | y :: ys => py_max key (if key y >? key best then y else best) ys
  end.

(** The files a poll takes for new: listed, not an unfinished download,
    not known. The iteration order of a Python set is unspecified; the
    model iterates in the order of [elements]. *)
Definition new_files (d : listing) (known_files : gset string) : gset string :=
  let candidates : gset string :=
    list_to_set (List.filter (fun f => negb (endswith f ".crdownload"))
                             (listdir d)) in
  candidates ∖ known_files.

(** [wait_for_new_download]: [while time.time() - start < timeout] with a
    sleep of half a second polls at [0, 0.5, 1, ...] as long as the time
    is below [timeout]: [2 * timeout] polls. [dir k] is the directory at
    the [k]-th poll. *)
Fixpoint wait_for_new_download_from (dir : nat -> listing)
  (known_files : gset string) (k remaining : nat) : M string :=
  match remaining with
  | O => raise (TimeoutError "Download did not complete within allotted time")
  | S r =>
      emit ListDir ;;
      match elements (new_files (dir k) known_files) with
      | f :: fs => ret (py_max (st_mtime (dir k)) f fs)
      | [] =>
          emit (Sleep 500) ;;
          wait_for_new_download_from dir known_files (S k) r
      end
  end.

Definition wait_for_new_download (dir : nat -> listing)
  (known_files : gset string) (timeout : Z) : M string :=
  wait_for_new_download_from dir known_files 0 (Z.to_nat (2 * timeout)).

(** ** Ordered artifact names *)

(** [str(n)] for a natural number. *)
Definition decimal (n : nat) : string :=
  NilZero.string_of_uint (Nat.to_uint n).

Fixpoint zeros (k : nat) : string :=
  match k with
  | O => ""
  | S k' => String "0" (zeros k')
  end.

(** [f"{n:04d}"]: at least four characters, padded with zeros. *)
Definition format_04d (n : nat) : string :=
  let d := decimal n in
  zeros (4 - String.length d) +:+ d.

Definition ordered_name (idx : nat) (fmt : string) : string :=
  "part_" +:+ format_04d idx +:+ "." +:+ fmt.

(** ** The orchestrator *)

(** What the browser and the file system show while one chunk is
    processed. *)
Record chunk_world := {
  textarea : result unit;            (* the two 5 s waits on the text area *)
  page_before : page;                (* the page when the snapshot is taken *)
  generate_button : result unit;     (* finding the button, waiting for it *)
  page_after : nat -> page;          (* the page at each poll after the click *)
  download_clickable : nat -> bool;  (* at each poll of the button wait *)
  dir_before : listing;              (* the directory before the download click *)
  dir_after : nat -> listing;        (* the directory at each poll after it *)
}.

Definition GENERATION_TIMEOUT : Z := 300.
Definition DOWNLOAD_BUTTON_TIMEOUT : Z := 60.

(** Step 3 of the loop body: wait for the new audio. *)
Definition await_generation (idx : nat)
  (prev_src_main prev_src_hidden prev_href_download : option string)
  (pages : nat -> page) : M nat :=
  try_except
    (WebDriverWait_until GENERATION_TIMEOUT
       (new_audio_ready prev_src_main prev_src_hidden prev_href_download)
       pages)
    (fun e =>
       match e with
       | TimeoutException =>
           Some (raise (RuntimeError
                          ("Audio generation timed out for chunk " +:+ decimal idx)))
       | _ => None
       end).

(** The download of one chunk: the listing before the click, the click,
    the wait for the file. *)
Definition download_stage (idx : nat) (max_wait : Z)
  (before : listing) (dir : nat -> listing) : M string :=
  emit ListDir ;;
  let before_files : gset string := list_to_set (listdir before) in
  emit (Click DOWNLOAD_BTN_CLICK_XPATH) ;;
  try_except (wait_for_new_download dir before_files max_wait)
    (fun e =>
       match e with
       | TimeoutError _ =>
           Some (raise (RuntimeError
                          ("Timed out waiting for download for chunk " +:+ decimal idx)))
       | _ => None
       end).

(** The body of [for idx, chunk in enumerate(chunks, start=1)]. The
    progress messages are left out. *)
Definition process_chunk (idx : nat) (chunk : str) (fmt : string)
  (max_wait : Z) (w : chunk_world) : M unit :=
  lift (textarea w) ;;
  emit (SetText chunk) ;;
  let prev_src_main := get_attr_safe (page_before w) MAIN_AUDIO_XPATH "src" in
  let prev_src_hidden := get_attr_safe (page_before w) HIDDEN_AUDIO_XPATH "src" in
  let prev_href_download := get_attr_safe (page_before w) DOWNLOAD_ANCHOR_XPATH "href" in
  lift (generate_button w) ;;
  emit (Click GENERATE_BTN_XPATH) ;;
  await_generation idx prev_src_main prev_src_hidden prev_href_download
    (page_after w) ;;
  WebDriverWait_until DOWNLOAD_BUTTON_TIMEOUT (fun b : bool => b)
    (download_clickable w) ;;
  run new_file <- download_stage idx max_wait (dir_before w) (dir_after w);
  emit (Rename new_file (ordered_name idx fmt)).

Fixpoint chunks_loop (idx : nat) (chunks : list str) (fmt : string)
  (max_wait : Z) (w : nat -> chunk_world) : M unit :=
  match chunks with
  | [] => ret tt
  | chunk :: rest =>
      process_chunk idx chunk fmt max_wait (w idx) ;;
      chunks_loop (S idx) rest fmt max_wait w
  end.

(** [generate_audio_chunks], from the loop on: the directory and the
    browser are set up before, and [driver.quit()] runs on every way out. *)
Definition generate_audio_chunks (chunks : list str) (fmt : string)
  (max_wait : Z) (w : nat -> chunk_world) : M unit :=
  try_finally (chunks_loop 1 chunks fmt max_wait w) (emit Quit).

(** The names the renames of a trace leave in the directory. *)
Definition renamed (log : list event) : list string :=
  flat_map (fun ev => match ev with Rename _ dst => [dst] | _ => [] end) log.

(** ** The assembler *)

Module StringOrder <: TotalLeBool.

Definition t := string.

Definition leb := String.leb.

Theorem leb_total : forall a1 a2, leb a1 a2 = true \/ leb a2 a1 = true.
Proof. exact String.leb_total. Qed.

End StringOrder.

(** [sorted(names)]: Python compares strings code point by code point. *)
Module StringSort := Sort StringOrder.

(** The codec collaborator: [AudioSegment.empty()] and [+]. *)
Class Codec (segment : Type) := {
  seg_empty : segment;
  seg_add : segment -> segment -> segment;
}.

(** [parts_dir.glob("part_*")] on the names of the directory. *)
Definition glob_parts (parts_dir : list string) : list string :=
  List.filter (String.prefix "part_") parts_dir.

Fixpoint decode_all {segment} `{Codec segment}
  (from_file : string -> result segment) (files : list string)
  (combined : segment) : M segment :=
  match files with
  | [] => ret combined
  | f :: rest =>
      emit (Decode f) ;;
      run seg <- lift (from_file f);
      decode_all from_file rest (seg_add combined seg)
  end.

(** [concatenate_audio]; the value is the segment handed to [export]. *)
Definition concatenate_audio {segment} `{Codec segment}
  (parts_dir : list string) (from_file : string -> result segment)
  : M segment :=
  let files := StringSort.sort (glob_parts parts_dir) in
  if negb (truthy files) then
    raise (FileNotFoundError "No audio parts found to concatenate")
  else
    run combined <- decode_all from_file files seg_empty;
    emit (Print OkWroteFinal) ;;
    ret combined.

(** ** The command line and [main] *)

Inductive audio_format := mp3 | wav.

Definition format_name (f : audio_format) : string :=
  match f with mp3 => "mp3" | wav => "wav" end.

Record args := {
  arg_input : string;
  arg_out : string;
  arg_format : audio_format;
  arg_chunk_size : Z;
  arg_max_wait : Z;
  arg_quiet : bool;
}.

(** The options as [argparse] hands them over, typed. *)
Inductive cli_option :=
| OptInput (path : string)
| OptOut (path : string)
| OptFormat (f : audio_format)
| OptChunkSize (n : Z)
| OptMaxWait (n : Z)
| OptQuiet.

(** The declared defaults; [--out] is required. *)
Definition default_args (out : string) : args :=
  {| arg_input := "input.txt"; arg_out := out; arg_format := mp3;
     arg_chunk_size := 1000; arg_max_wait := 120; arg_quiet := false |}.

Definition set_option (a : args) (o : cli_option) : args :=
  match o with
  | OptInput p =>
      {| arg_input := p; arg_out := arg_out a; arg_format := arg_format a;
         arg_chunk_size := arg_chunk_size a; arg_max_wait := arg_max_wait a;
         arg_quiet := arg_quiet a |}
  | OptOut p =>
      {| arg_input := arg_input a; arg_out := p; arg_format := arg_format a;
         arg_chunk_size := arg_chunk_size a; arg_max_wait := arg_max_wait a;
         arg_quiet := arg_quiet a |}
  | OptFormat f =>
      {| arg_input := arg_input a; arg_out := arg_out a; arg_format := f;
         arg_chunk_size := arg_chunk_size a; arg_max_wait := arg_max_wait a;
         arg_quiet := arg_quiet a |}
  | OptChunkSize n =>
      {| arg_input := arg_input a; arg_out := arg_out a; arg_format := arg_format a;
         arg_chunk_size := n; arg_max_wait := arg_max_wait a;
         arg_quiet := arg_quiet a |}
  | OptMaxWait n =>
      {| arg_input := arg_input a; arg_out := arg_out a; arg_format := arg_format a;
         arg_chunk_size := arg_chunk_size a; arg_max_wait := n;
         arg_quiet := arg_quiet a |}
  | OptQuiet =>
      {| arg_input := arg_input a; arg_out := arg_out a; arg_format := arg_format a;
         arg_chunk_size := arg_chunk_size a; arg_max_wait := arg_max_wait a;
         arg_quiet := true |}
  end.

Definition given_out (argv : list cli_option) : bool :=
  existsb (fun o => match o with OptOut _ => true | _ => false end) argv.

Definition parse_args (argv : list cli_option) : result args :=
  if given_out argv then Ok (fold_left set_option argv (default_args ""))
  else Raise (SystemExit 2).

(** [for attempt in range(3)] of the cleanup. [rmtree k] is what the
    [k]-th call of [shutil.rmtree] does. *)
Fixpoint cleanup_from (VERBOSE : bool) (rmtree : nat -> result unit)
  (attempt remaining : nat) : M unit :=
  match remaining with
  | O => ret tt
  | S r =>
      emit Rmtree ;;
      match rmtree attempt with
      | Ok _ => vprint VERBOSE InfoTempRemoved
      | Raise e =>
          if is_Exception e then
            vprint VERBOSE WarnRemoveFailed ;;
            (if (attempt <? 2)%nat then emit (Sleep 2000)
             else vprint VERBOSE WarnLeftBehind) ;;
            cleanup_from VERBOSE rmtree (S attempt) r
          else raise e
      end
  end.

Definition cleanup (VERBOSE : bool) (rmtree : nat -> result unit) : M unit :=
  cleanup_from VERBOSE rmtree 0 3.

(** What the run finds outside itself. *)
Record world (segment : Type) := {
  input_file : option str;               (* the text of the input file, if it is a file *)
  chunk_worlds : nat -> chunk_world;     (* per chunk index *)
  parts_dir : list string;               (* the names in the download directory at assembly *)
  from_file : string -> result segment;  (* AudioSegment.from_file *)
  rmtree : nat -> result unit;           (* shutil.rmtree, per attempt *)
}.
Arguments input_file {segment} _.
Arguments chunk_worlds {segment} _.
Arguments parts_dir {segment} _.
Arguments from_file {segment} _.
Arguments rmtree {segment} _.

(** [main] up to the final audio file. *)
Definition convert {segment} `{Codec segment} (a : args) (w : world segment)
  : M segment :=
  let VERBOSE := negb (arg_quiet a) in
  vprint VERBOSE InfoSwitchWindow ;;
  emit (Sleep 3000) ;;
  match input_file w with
  | None => raise (SystemExit 2)
  | Some raw_text =>
      run chunks <- lift (split_into_chunks raw_text (arg_chunk_size a));
      vprint VERBOSE (InfoSplit (List.length chunks)) ;;
      generate_audio_chunks chunks (format_name (arg_format a))
        (arg_max_wait a) (chunk_worlds w) ;;
      concatenate_audio (parts_dir w) (from_file w)
  end.

(** [main]; its value here is the segment written to the output file. *)
Definition main {segment} `{Codec segment} (argv : list cli_option)
  (w : world segment) : M segment :=
  run a <- lift (parse_args argv);
  run final <- convert a w;
  cleanup (negb (arg_quiet a)) (rmtree w) ;;
  ret final.

(** * Vocabulary of the properties *)

(** ** Text and whitespace *)

(** The text without its whitespace characters. *)
Definition nows (s : str) : str := List.filter (fun c => negb (isspace c)) s.

(** The text is made of whitespace only. *)
Definition blank (s : str) : bool := forallb isspace s.

(** [sep.join(l)] *)
Fixpoint join (sep : str) (l : list str) : str :=
  match l with
  | [] => []
  | [x] => x
  | x :: rest => x ++ sep ++ join sep rest
  end.

(** The last character of the text is not whitespace. *)
Definition ends_nonspace (s : str) : Prop :=
  exists s' c, s = s' ++ [c] /\ isspace c = false.

(** The slices [[sent[i : i+n] for i in range(0, len(sent), n)]]. *)
Definition blocks {A} (n : nat) (s : list A) (count : nat) : list (list A) :=
  List.map (fun k => firstn n (skipn (k * n) s)) (List.seq 0 count).

(** ** The loop of the splitter *)

(** A chunk is not empty, and it is blank only if it is exactly as long as
    the bound, which only a raw slice of a long sentence can be. *)
Definition good_chunk (n : Z) (c : str) : Prop :=
  c <> [] /\ (blank c = true -> len c = n).

(** The state [(chunks, current_chunk)] after the sentences whose
    non-whitespace characters are [w]. *)
Record split_inv (n : Z) (st : list str * str) (w : str) : Prop := {
  inv_text : nows (List.concat (fst st) ++ snd st) = w;
  inv_fresh : snd st = [] -> fst st = [] /\ w = [];
  inv_ends : snd st <> [] -> ends_nonspace (snd st);
  inv_chunks : Forall (good_chunk n) (fst st);
}.

(** What one iteration does, case by case. *)
Inductive step_case (n : Z) (chunks : list str) (cur sent : str)
  : result (list str * str) -> Prop :=
| StepSkip :
    sent = [] ->
    step_case n chunks cur sent (Ok (chunks, cur))
| StepClose :
    sent <> [] -> len cur + len sent + 1 > n -> cur <> [] ->
    step_case n chunks cur sent (Ok (chunks ++ [strip cur], sent))
| StepSliceRaise :
    sent <> [] -> cur = [] -> n <= 0 ->
    step_case n chunks cur sent (Raise (if n =? 0 then ValueError else IndexError))
| StepSlice init seed :
    sent <> [] -> len sent + 1 > n -> cur = [] -> 1 <= n ->
    List.concat init ++ seed = sent -> seed <> [] -> len seed <= n ->
    Forall (fun c => len c = n) init ->
    step_case n chunks cur sent (Ok (chunks ++ init, seed))
| StepExtend :
    sent <> [] -> len cur + len sent + 1 <= n ->
    step_case n chunks cur sent
      (Ok (chunks, cur ++ (if truthy cur then [SPACE] else []) ++ sent)).

(** A chunk is within the bound, or it is a whole stripped sentence that
    is longer than the bound. *)
Definition bounded (n : Z) (sentences : list str) (c : str) : Prop :=
  len c <= n
  \/ exists s, In s sentences /\ c = strip s /\ n < len c.

(** ** Signals *)




(** ** New files, polls and time *)

(** A file is new in a listing: it is listed, it is not an unfinished
    download, and it was not in the directory before the click. *)
Definition is_new (before d : listing) (f : string) : Prop :=
  In f (listdir d)
  /\ endswith f ".crdownload" = false
  /\ ~ In f (listdir before).

(** The trace of [k] polls that found nothing. *)
Fixpoint idle_polls (k : nat) : list event :=
  match k with
  | O => []
  | S k' => ListDir :: Sleep 500 :: idle_polls k'
  end.

(** Seconds slept in a trace. *)
Definition slept (log : list event) : Z :=
  fold_right (fun ev acc => match ev with Sleep ms => ms + acc | _ => acc end) 0 log.

(** ** Names in order *)



(** ** Options and cleanup *)


Definition say (VERBOSE : bool) (m : message) : list event :=
  if VERBOSE then [Print m] else [].

Definition removed (r : result unit) : bool :=
  match r with Ok _ => true | Raise _ => false end.

(** What the cleanup is to do: up to three attempts, two seconds of sleep
    after the first and after the second failure, nothing more after the
    third. *)
Definition cleanup_trace (VERBOSE : bool) (rmtree : nat -> result unit)
  : list event :=
  if removed (rmtree 0%nat) then Rmtree :: say VERBOSE InfoTempRemoved
  else
    Rmtree :: say VERBOSE WarnRemoveFailed ++ Sleep 2000 ::
    (if removed (rmtree 1%nat) then Rmtree :: say VERBOSE InfoTempRemoved
     else
       Rmtree :: say VERBOSE WarnRemoveFailed ++ Sleep 2000 ::
       (if removed (rmtree 2%nat) then Rmtree :: say VERBOSE InfoTempRemoved
        else Rmtree :: say VERBOSE WarnRemoveFailed ++ say VERBOSE WarnLeftBehind)).

Definition attempts (log : list event) : nat :=
  List.length (List.filter (fun ev => match ev with Rmtree => true | _ => false end) log).

(** * Sample inputs *)

(** A page where only the main audio has a source. *)
Definition page_with_main (src : string) : page :=
  fun xpath attr =>
    if String.eqb xpath MAIN_AUDIO_XPATH && String.eqb attr "src"
    then Ok (Some src) else Raise NoSuchElementException.

(** Polls of a page that is absent, then unchanged, then shows a new
    download link next to the old main audio. *)
Definition pages_example (k : nat) : page :=
  match k with
  | O => fun _ _ => Raise NoSuchElementException
  | S O => page_with_main "blob:old"
  | _ =>
      fun xpath attr =>
        if String.eqb xpath DOWNLOAD_ANCHOR_XPATH && String.eqb attr "href"
        then Ok (Some "file=new.mp3"%string)
        else page_with_main "blob:old" xpath attr
  end.

Definition dir_before_example : listing := [("part_0001.mp3"%string, 100)].

(** An unfinished download for two polls, then two finished files. *)
Definition dir_after_example (k : nat) : listing :=
  match k with
  | O | S O => [("part_0001.mp3"%string, 100); ("audio.mp3.crdownload"%string, 200)]
  | _ => [("part_0001.mp3"%string, 100); ("other.mp3"%string, 205);
          ("audio.mp3"%string, 210)]
  end.

(** A world in which every chunk goes through. *)
Definition chunk_world_example : chunk_world :=
  {| textarea := Ok tt;
     page_before := page_with_main "blob:old";
     generate_button := Ok tt;
     page_after := pages_example;
     download_clickable := fun _ => true;
     dir_before := dir_before_example;
     dir_after := dir_after_example |}.

(** Segments as lists of samples, appended. *)
Definition samples_codec : Codec (list Z) :=
  {| seg_empty := []; seg_add := @app Z |}.

(** A decoder that yields the number in the name as the only sample. *)
Definition from_file_example (f : string) : result (list Z) :=
  if String.eqb f "part_0001.mp3" then Ok [1]
  else if String.eqb f "part_0002.mp3" then Ok [2]
  else if String.eqb f "part_0010.mp3" then Ok [10]
  else Raise CouldntDecodeError.



Definition world_of (w : chunk_world) : world (list Z) :=
  {| input_file := Some (py "Hi.");
     chunk_worlds := fun _ => w;
     parts_dir := ["part_0001.mp3"%string];
     from_file := from_file_example;
     rmtree := fun _ => Ok tt |}.

(** A world where nothing ever happens. *)
Definition stalled (ready : bool) : chunk_world :=
  {| textarea := Ok tt;
     page_before := fun _ _ => Raise NoSuchElementException;
     generate_button := Ok tt;
     page_after := fun _ => if ready then page_with_main "blob:new"
                            else fun _ _ => Raise NoSuchElementException;
     download_clickable := fun _ => true;
     dir_before := [];
     dir_after := fun _ => [] |}.

Definition stuck_world : world (list Z) :=
  {| input_file := Some (py "Hi.");
     chunk_worlds := fun _ => chunk_world_example;
     parts_dir := ["part_0001.mp3"%string];
     from_file := from_file_example;
     rmtree := fun _ => Raise OSError |}.

(** * Vocabulary of the further properties *)

(** ** Sentences *)

(** The last character of the text is one of [.], [!], [?]. *)
Definition ends_sentence (s : str) : Prop :=
  exists s' c, s = s' ++ [c] /\ is_sentence_end c = true.

(** The text is empty or starts with a character that is not whitespace. *)
Definition starts_clean (s : str) : Prop :=
  s = [] \/ exists c t, s = c :: t /\ isspace c = false.


(** A chunk closed in the loop ends a sentence, or is exactly as long as
    the bound. *)
Definition closed_chunk (n : Z) (c : str) : Prop :=
  ends_sentence c \/ len c = n.

(** ** The run of a chunk *)

(** The events of a wait: sleeping, listing, clicking. *)
Definition quiet_event (ev : event) : bool :=
  match ev with
  | Sleep _ | ListDir | Click _ => true
  | _ => false
  end.

(** The steps of the orchestrator that matter for the order of the parts:
    a chunk is put into the text area, a file is renamed to a part. *)
Inductive milestone :=
| Submitted (chunk : str)
| Renamed (name : string).

Definition milestones (log : list event) : list milestone :=
  flat_map (fun ev => match ev with
                      | SetText c => [Submitted c]
                      | Rename _ dst => [Renamed dst]
                      | _ => []
                      end) log.

(** The milestones of the chunks numbered from [idx] that went through. *)
Fixpoint milestones_of (idx : nat) (chunks : list str) (fmt : string)
  : list milestone :=
  match chunks with
  | [] => []
  | c :: rest =>
      Submitted c :: Renamed (ordered_name idx fmt)
        :: milestones_of (S idx) rest fmt
  end.

(** How far the body of the loop gets with one chunk: it stops at the
    first step that raises, with the trace of the steps before. *)
Inductive chunk_run (idx : nat) (chunk : str) (fmt : string) (w : chunk_world)
  : M unit -> Prop :=
| RunNoTextarea e :
    chunk_run idx chunk fmt w ([], Raise e)
| RunStopped waits e :
    forallb quiet_event waits = true ->
    chunk_run idx chunk fmt w (SetText chunk :: waits, Raise e)
| RunRenamed waits f :
    forallb quiet_event waits = true ->
    chunk_run idx chunk fmt w
      (SetText chunk :: waits ++ [Rename f (ordered_name idx fmt)], Ok tt).

Definition count_quit (log : list event) : nat :=
  List.length (List.filter (fun ev => match ev with Quit => true | _ => false end) log).

(** A run in which the second chunk never shows its audio. *)
Definition second_stalls (idx : nat) : chunk_world :=
  if Nat.eqb idx 2 then stalled false else chunk_world_example.


(** ** The messages of a run *)

(** The messages printed in a trace, in order. *)
Definition prints (log : list event) : list message :=
  flat_map (fun ev => match ev with Print m => [m] | _ => [] end) log.

(** A world with an empty input file and an empty download directory. *)
Definition empty_input : world (list Z) :=
  {| input_file := Some (py "  ");
     chunk_worlds := fun _ => chunk_world_example;
     parts_dir := [];
     from_file := from_file_example;
     rmtree := fun _ => Ok tt |}.

(** A world without the input file. *)
Definition missing_input : world (list Z) :=
  {| input_file := None;
     chunk_worlds := fun _ => chunk_world_example;
     parts_dir := [];
     from_file := from_file_example;
     rmtree := fun _ => Ok tt |}.

(** * Properties *)

(** ** Sequences *)

Lemma truthy_false {A} (s : list A) : truthy s = false <-> s = [].
Proof. destruct s; simpl; split; congruence. Qed.

Lemma truthy_true {A} (s : list A) : truthy s = true <-> s <> [].
Proof. destruct s; simpl; split; congruence. Qed.

Lemma firstn_plus {A} (a b : nat) (l : list A) :
  firstn (a + b) l = firstn a l ++ firstn b (skipn a l).
Proof.
  revert l; induction a as [|a IH]; intros l; simpl; [reflexivity|].
  destruct l as [|x l]; simpl.
  - now rewrite firstn_nil.
  - now rewrite IH.
Qed.

(** A slice of positive width [n] that starts at a multiple of [n]. *)
Lemma py_slice_block {A} (s : list A) (n : Z) (k : nat) :
  1 <= n ->
  py_slice s (Z.of_nat k * n) (Z.of_nat k * n + n)
  = firstn (Z.to_nat n) (skipn (k * Z.to_nat n) s).
Proof.
  intros Hn. unfold py_slice, clamp_index, len.
  assert (Hk : 0 <= Z.of_nat k * n) by nia.
  destruct (Z.ltb_spec (Z.of_nat k * n) 0) as [?|_]; [lia|].
  destruct (Z.ltb_spec (Z.of_nat k * n + n) 0) as [?|_]; [lia|].
  assert (HkN : Z.of_nat (k * Z.to_nat n) = Z.of_nat k * n) by nia.
  revert Hk HkN.
  generalize (k * Z.to_nat n)%nat as m, (Z.of_nat k * n) as z.
  intros m z Hk HkN.
  destruct (Z.le_gt_cases (Z.of_nat (List.length s)) z) as [Hge|Hlt].
  - rewrite !Z.min_r by lia.
    rewrite Z.sub_diag. change (Z.to_nat 0) with 0%nat. simpl.
    assert (Hm : (List.length s <= m)%nat) by lia.
    now rewrite (skipn_all2 s Hm), firstn_nil.
  - rewrite (Z.min_l z) by lia.
    replace (Z.to_nat z) with m by lia.
    destruct (Z.le_gt_cases (z + n) (Z.of_nat (List.length s))) as [Hin|Hout].
    + rewrite Z.min_l by lia. f_equal. lia.
    + rewrite Z.min_r by lia.
      rewrite !firstn_all2; [reflexivity | |]; rewrite length_skipn; lia.
Qed.

(** [range(0, L, n)] for a positive step. *)
Lemma py_range_pos (L n : Z) :
  1 <= n -> 1 <= L ->
  py_range 0 L n
  = Ok (List.map (fun k => 0 + Z.of_nat k * n)
          (List.seq 0 (S (Z.to_nat ((L - 1) / n))))).
Proof.
  intros Hn HL. unfold py_range, range_len.
  destruct (Z.eqb_spec n 0) as [?|_]; [lia|].
  destruct (Z.ltb_spec 0 n) as [_|?]; [|lia].
  destruct (Z.ltb_spec 0 L) as [_|?]; [|lia].
  do 3 f_equal.
  assert (0 <= (L - 1) / n) by (apply Z.div_pos; lia).
  replace (L - 0 - 1) with (L - 1) by lia. lia.
Qed.

Lemma concat_blocks {A} (n : nat) (s : list A) (count : nat) :
  List.concat (blocks n s count) = firstn (count * n) s.
Proof.
  unfold blocks. induction count as [|c IH].
  - reflexivity.
  - rewrite seq_S, List.map_app, concat_app, IH. simpl.
    rewrite app_nil_r.
    replace (n + c * n)%nat with (c * n + n)%nat by lia.
    now rewrite firstn_plus.
Qed.

Lemma length_block {A} (n : nat) (s : list A) (k : nat) :
  List.length (firstn n (skipn (k * n) s))
  = Nat.min n (List.length s - k * n).
Proof. now rewrite length_firstn, length_skipn. Qed.

Lemma py_index_last {A} (l : list A) (x : A) :
  py_index (l ++ [x]) (-1) = Ok x.
Proof.
  unfold py_index, len. rewrite length_app. simpl.
  destruct (Z.leb_spec 0 (-1 + Z.of_nat (List.length l + 1))) as [_|?]; [|lia].
  destruct (Z.ltb_spec (-1 + Z.of_nat (List.length l + 1))
              (Z.of_nat (List.length l + 1))) as [_|?]; [|lia].
  simpl.
  replace (Z.to_nat (-1 + Z.of_nat (List.length l + 1))) with (List.length l) by lia.
  rewrite nth_error_app2 by lia. now rewrite Nat.sub_diag.
Qed.

Lemma py_index_nil {A} (i : Z) : py_index (@nil A) i = Raise IndexError.
Proof.
  unfold py_index, len. cbn [List.length]. change (Z.of_nat 0) with 0.
  set (k := if i <? 0 then i + 0 else i).
  destruct (Z.leb_spec 0 k), (Z.ltb_spec k 0); simpl; try reflexivity; lia.
Qed.

Lemma py_slice_init {A} (l : list A) (x : A) :
  py_slice (l ++ [x]) 0 (-1) = l.
Proof.
  unfold py_slice, clamp_index, len. rewrite length_app. simpl.
  rewrite Z.min_l by lia. simpl.
  replace (Z.to_nat (Z.max 0 (-1 + Z.of_nat (List.length l + 1)) - 0))
    with (List.length l) by lia.
  change (Z.to_nat 0) with 0%nat. rewrite skipn_O.
  now rewrite firstn_app, Nat.sub_diag, firstn_all, app_nil_r.
Qed.

(** ** Whitespace *)

Lemma nows_app (a b : str) : nows (a ++ b) = nows a ++ nows b.
Proof. apply List.filter_app. Qed.

Lemma nows_rev (s : str) : nows (rev s) = rev (nows s).
Proof. apply List.filter_rev. Qed.

Lemma nows_nil_blank (s : str) : nows s = [] <-> blank s = true.
Proof.
  unfold nows, blank. induction s as [|c s IH]; simpl; [tauto|].
  destruct (isspace c); simpl; [exact IH|]. split; discriminate.
Qed.


Lemma lstrip_nows (s : str) : nows (lstrip s) = nows s.
Proof.
  induction s as [|c s IH]; simpl; [reflexivity|].
  destruct (isspace c) eqn:E; simpl; rewrite ?E; simpl; auto.
Qed.

Lemma strip_nows (s : str) : nows (strip s) = nows s.
Proof.
  unfold strip, rstrip.
  now rewrite nows_rev, lstrip_nows, nows_rev, rev_involutive, lstrip_nows.
Qed.

Lemma lstrip_head (s : str) :
  lstrip s = [] \/ exists c s', lstrip s = c :: s' /\ isspace c = false.
Proof.
  induction s as [|c s IH]; simpl; [now left|].
  destruct (isspace c) eqn:E; [exact IH|]. right. eauto.
Qed.

(** Stripping on the left only removes a prefix. *)
Lemma lstrip_suffix (s : str) : exists w, s = w ++ lstrip s.
Proof.
  induction s as [|c s [w IH]]; simpl.
  - now exists [].
  - destruct (isspace c).
    + exists (c :: w). simpl. now f_equal.
    + now exists [].
Qed.

Lemma rstrip_ends (s : str) : rstrip s = [] \/ ends_nonspace (rstrip s).
Proof.
  unfold rstrip. destruct (lstrip_head (rev s)) as [E|(c & s' & E & Hc)].
  - left. now rewrite E.
  - right. exists (rev s'), c. rewrite E. simpl. auto.
Qed.

Lemma rstrip_fixed (s : str) : ends_nonspace s -> rstrip s = s.
Proof.
  intros (s' & c & -> & Hc). unfold rstrip.
  rewrite rev_app_distr. simpl. rewrite Hc.
  rewrite <- (rev_involutive s') at 2.
  change (rev (c :: rev s') = rev (rev s') ++ [c]). reflexivity.
Qed.

Lemma strip_ends (s : str) : strip s = [] \/ ends_nonspace (strip s).
Proof. apply rstrip_ends. Qed.

Lemma ends_nonspace_suffix (a b : str) :
  ends_nonspace (a ++ b) -> b <> [] -> ends_nonspace b.
Proof.
  intros (s' & c & E & Hc) Hb.
  destruct (exists_last Hb) as (b' & d & ->).
  rewrite app_assoc in E. apply app_inj_tail in E as [_ ->].
  now exists b', c.
Qed.

Lemma ends_nonspace_app (a b : str) : ends_nonspace b -> ends_nonspace (a ++ b).
Proof.
  intros (s' & c & -> & Hc). exists (a ++ s'), c. now rewrite app_assoc.
Qed.

Lemma ends_nonspace_nows (s : str) : ends_nonspace s -> nows s <> [].
Proof.
  intros (s' & c & -> & Hc). rewrite nows_app. simpl. rewrite Hc. simpl.
  now destruct (nows s').
Qed.

Lemma ends_nonspace_not_blank (s : str) : ends_nonspace s -> blank s = false.
Proof.
  intros H. apply ends_nonspace_nows in H.
  destruct (blank s) eqn:E; [|reflexivity].
  now apply nows_nil_blank in E.
Qed.

Lemma ends_nonspace_nonempty (s : str) : ends_nonspace s -> s <> [].
Proof. intros (s' & c & -> & _). now destruct s'. Qed.

(** Stripping keeps a text that ends in a character: it stays non-empty
    and still ends in one. *)
Lemma strip_of_ends (s : str) : ends_nonspace s -> ends_nonspace (strip s).
Proof.
  intros H. destruct (strip_ends s) as [E|E]; [|exact E].
  apply ends_nonspace_nows in H. rewrite <- strip_nows, E in H. now elim H.
Qed.

(** A text has a non-whitespace character exactly when its stripped form
    is not empty. *)
Lemma strip_nonempty_iff (s : str) : strip s <> [] <-> nows s <> [].
Proof.
  split.
  - intros H. destruct (strip_ends s) as [E|E]; [contradiction|].
    rewrite <- strip_nows. now apply ends_nonspace_nows.
  - intros H E. rewrite <- strip_nows, E in H. now elim H.
Qed.

(** ** The sentence pattern only removes whitespace *)

Lemma re_split_from_nows (st : scan) (piece s : str) :
  nows (List.concat (re_split_from st piece s)) = nows (rev piece ++ s).
Proof.
  revert st piece. induction s as [|c s IH]; intros st piece; simpl.
  - now rewrite !app_nil_r.
  - destruct st as [after_end|].
    + destruct (after_end && isspace c) eqn:E.
      * apply andb_true_iff in E as [_ E]. simpl.
        rewrite nows_app, IH, !nows_app. simpl. now rewrite E.
      * rewrite IH. simpl. now rewrite <- app_assoc.
    + destruct (isspace c) eqn:E.
      * rewrite IH, !nows_app. simpl. now rewrite E.
      * rewrite IH. simpl. now rewrite <- app_assoc.
Qed.

Lemma sentence_end_re_split_nows (text : str) :
  nows (List.concat (sentence_end_re_split text)) = nows text.
Proof. apply re_split_from_nows. Qed.

(** ** The loop of the splitter *)

Lemma split_inv_init (n : Z) : split_inv n ([], []) [].
Proof. split; simpl; auto. intros H; now elim H. Qed.

Lemma good_chunk_ends (n : Z) (c : str) : ends_nonspace c -> good_chunk n c.
Proof.
  intros H. split.
  - now apply ends_nonspace_nonempty.
  - rewrite (ends_nonspace_not_blank _ H). discriminate.
Qed.

(** The slices of a sentence of [L >= 1] characters for a bound [n >= 1]:
    the sentence is cut into blocks of [n] characters, the last block
    holding what remains. *)
Lemma slices_of_sentence (sent : str) (n : Z) :
  1 <= n -> sent <> [] ->
  exists init seed,
    py_range 0 (len sent) n
      = Ok (List.map (fun k => 0 + Z.of_nat k * n)
              (List.seq 0 (S (Z.to_nat ((len sent - 1) / n)))))
    /\ List.map (fun i => py_slice sent i (i + n))
         (List.map (fun k => 0 + Z.of_nat k * n)
            (List.seq 0 (S (Z.to_nat ((len sent - 1) / n)))))
       = init ++ [seed]
    /\ List.concat init ++ seed = sent
    /\ seed <> []
    /\ len seed <= n
    /\ Forall (fun c => len c = n) init.
Proof.
  intros Hn Hne.
  assert (HL : 1 <= len sent).
  { unfold len. destruct sent; [contradiction|simpl; lia]. }
  set (N := Z.to_nat n). set (c := Z.to_nat ((len sent - 1) / n)).
  assert (Hdiv : 0 <= (len sent - 1) / n) by (apply Z.div_pos; lia).
  assert (Hlo : Z.of_nat c * n <= len sent - 1).
  { unfold c. rewrite Z2Nat.id by lia. rewrite Z.mul_comm.
    apply Z.mul_div_le. lia. }
  assert (Hhi : len sent - 1 < (Z.of_nat c + 1) * n).
  { unfold c. rewrite Z2Nat.id by lia.
    pose proof (Z.mul_succ_div_gt (len sent - 1) n ltac:(lia)). lia. }
  assert (HcN : Z.of_nat (c * N) = Z.of_nat c * n) by (unfold N; nia).
  exists (blocks N sent c), (firstn N (skipn (c * N) sent)).
  split; [now apply py_range_pos|].
  assert (Hparts :
    List.map (fun i => py_slice sent i (i + n))
      (List.map (fun k => 0 + Z.of_nat k * n) (List.seq 0 (S c)))
    = blocks N sent (S c)).
  { rewrite List.map_map. unfold blocks. apply List.map_ext. intros k.
    rewrite Z.add_0_l. now apply py_slice_block. }
  split.
  { rewrite Hparts. unfold blocks. now rewrite seq_S, List.map_app. }
  split.
  { rewrite concat_blocks, <- firstn_plus.
    apply firstn_all2. unfold len in *. nia. }
  split.
  { intros E. apply (f_equal (@List.length _)) in E.
    rewrite length_block in E. simpl in E. unfold len in *. unfold N in *. nia. }
  split.
  { unfold len. rewrite length_block. unfold N. lia. }
  { unfold blocks. apply List.Forall_forall. intros b Hb.
    apply in_map_iff in Hb as (k & <- & Hk). apply in_seq in Hk.
    unfold len. rewrite length_block.
    assert (Z.of_nat (k * N) + n <= Z.of_nat c * n) by (unfold N; nia).
    unfold len in *. unfold N in *. lia. }
Qed.

(** With a bound below one the slicing of a sentence raises. *)
Lemma slices_raise (sent : str) (n : Z) :
  n <= 0 -> sent <> [] ->
  (do starts <- py_range 0 (len sent) n;
   let parts := List.map (fun i => py_slice sent i (i + n)) starts in
   do seed <- py_index parts (-1); Ok seed)
  = Raise (if n =? 0 then ValueError else IndexError).
Proof.
  intros Hn Hne. unfold py_range, range_len.
  destruct (Z.eqb_spec n 0) as [?|Hn0]; [reflexivity|].
  destruct (Z.ltb_spec 0 n) as [?|_]; [lia|].
  assert (0 <= len sent) by (unfold len; lia).
  destruct (Z.ltb_spec (len sent) 0) as [?|_]; [lia|].
  reflexivity.
Qed.

Lemma split_step_case (n : Z) (chunks : list str) (cur sent0 : str) :
  step_case n chunks cur (strip sent0) (split_step n (chunks, cur) sent0).
Proof.
  unfold split_step. set (sent := strip sent0).
  destruct (truthy sent) eqn:Hs; simpl.
  2:{ apply truthy_false in Hs. now constructor. }
  apply truthy_true in Hs.
  destruct (Z.gtb_spec (len cur + len sent + 1) n) as [Hov|Hfit].
  2:{ now constructor. }
  destruct (truthy cur) eqn:Hc.
  { apply truthy_true in Hc. constructor; auto; lia. }
  apply truthy_false in Hc. subst cur.
  destruct (Z.le_gt_cases n 0) as [Hn|Hn].
  - pose proof (slices_raise sent n Hn Hs) as E.
    destruct (py_range 0 (len sent) n) as [starts|e]; simpl in *.
    + destruct (py_index _ (-1)) as [seed|e]; simpl in *; [discriminate|].
      injection E as ->. now constructor.
    + injection E as ->. now constructor.
  - destruct (slices_of_sentence sent n ltac:(lia) Hs)
      as (init & seed & Hr & Hp & Hcat & Hseed & Hlen & Hall).
    rewrite Hr. cbn [bind]. cbv zeta. rewrite Hp, py_index_last, py_slice_init.
    cbn [bind].
    apply StepSlice; auto; [unfold len in *; simpl in *; lia | lia].
Qed.

Lemma split_step_result (n : Z) (chunks : list str) (cur sent0 : str) r :
  split_step n (chunks, cur) sent0 = r ->
  step_case n chunks cur (strip sent0) r.
Proof. intros <-. apply split_step_case. Qed.

Lemma split_step_inv (n : Z) (st st' : list str * str) (sent0 w : str) :
  split_step n st sent0 = Ok st' ->
  split_inv n st w ->
  split_inv n st' (w ++ nows sent0).
Proof.
  destruct st as [chunks cur]. intros Hcase [Ht Hf He Hc].
  apply split_step_result in Hcase. simpl in *.
  rewrite <- (strip_nows sent0).
  assert (Hsent : strip sent0 <> [] -> ends_nonspace (strip sent0)).
  { intros Hne. now destruct (strip_ends sent0). }
  inversion Hcase
    as [Hs|Hs Hov Hcur|Hs Hcur Hn|init seed Hs Hov Hcur Hn Hcat Hseed Hlen Hall|Hs Hfit];
    simpl.
  - rewrite Hs. rewrite app_nil_r. now split.
  - split; simpl.
    + rewrite concat_app. simpl. rewrite app_nil_r.
      rewrite <- Ht, !nows_app, strip_nows. now rewrite <- !app_assoc.
    + intros E. now rewrite E in Hs.
    + auto.
    + apply Forall_app. split; [exact Hc|]. constructor; [|constructor].
      apply good_chunk_ends, strip_of_ends. auto.
  - subst cur. destruct (Hf eq_refl) as [-> ->].
    split; simpl.
    + now rewrite Hcat.
    + intros E. contradiction.
    + intros _. apply (ends_nonspace_suffix (List.concat init)); auto.
      rewrite Hcat. auto.
    + eapply Forall_impl; [exact Hall|]. intros c Hlenc. simpl in Hlenc.
      split; [|auto]. intros ->. unfold len in Hlenc. simpl in Hlenc. lia.
  - split; simpl.
    + rewrite <- Ht, !nows_app. rewrite <- !app_assoc. do 2 f_equal.
      now destruct (truthy cur).
    + intros E. apply app_eq_nil in E as [_ E].
      apply app_eq_nil in E as [_ E]. contradiction.
    + intros _. rewrite app_assoc. apply ends_nonspace_app. auto.
    + exact Hc.
Qed.

Lemma split_step_total (n : Z) (st : list str * str) (sent0 : str) :
  1 <= n -> exists st', split_step n st sent0 = Ok st'.
Proof.
  destruct st as [chunks cur]. intros Hn.
  destruct (split_step n (chunks, cur) sent0) as [st'|e] eqn:Hcase; [eauto|].
  apply split_step_result in Hcase. inversion Hcase. lia.
Qed.

Lemma for_each_split_inv (n : Z) (sentences : list str) :
  forall st st' w,
    for_each (split_step n) sentences st = Ok st' ->
    split_inv n st w ->
    split_inv n st' (w ++ nows (List.concat sentences)).
Proof.
  induction sentences as [|s rest IH]; intros st st' w Hrun Hinv; simpl in *.
  - injection Hrun as <-. now rewrite app_nil_r.
  - destruct (split_step n st s) as [st1|e] eqn:Hstep; simpl in Hrun; [|discriminate].
    rewrite nows_app, app_assoc.
    eapply IH; [exact Hrun|]. eapply split_step_inv; eauto.
Qed.

Lemma for_each_split_total (n : Z) (sentences : list str) :
  1 <= n ->
  forall st, exists st', for_each (split_step n) sentences st = Ok st'.
Proof.
  intros Hn. induction sentences as [|s rest IH]; intros st; simpl.
  - eauto.
  - destruct (split_step_total n st s Hn) as [st1 ->]. simpl. apply IH.
Qed.

(** With a bound below one, the first sentence with text raises. *)
Lemma for_each_split_raise (n : Z) (sentences : list str) :
  n <= 0 ->
  Exists (fun s => strip s <> []) sentences ->
  for_each (split_step n) sentences ([], [])
  = Raise (if n =? 0 then ValueError else IndexError).
Proof.
  intros Hn.
  assert (Hcases : forall s,
    (strip s = [] /\ split_step n ([], []) s = Ok ([], []))
    \/ (strip s <> [] /\ split_step n ([], []) s
          = Raise (if n =? 0 then ValueError else IndexError))).
  { intros s. destruct (split_step n ([], []) s) as [st'|e] eqn:Hcase;
      apply split_step_result in Hcase;
      inversion Hcase; subst; auto; try contradiction; try lia;
      unfold len in *; simpl in *; lia. }
  induction 1 as [s rest Hs|s rest Hex IH]; cbn [for_each].
  - destruct (Hcases s) as [[E _]|[_ ->]]; [contradiction|reflexivity].
  - destruct (Hcases s) as [[_ ->]|[_ ->]]; [exact IH|reflexivity].
Qed.

(** ** The splitter: round trip, chunks, totality *)

Example split_ex1 :
  sentence_end_re_split (py "a.  b! c") = [py "a."; py "b!"; py "c"].
Proof. reflexivity. Qed.

Example split_ex2 :
  sentence_end_re_split (py "a. ") = [py "a."; py ""].
Proof. reflexivity. Qed.

Example split_ex3 :
  split_into_chunks (py "Hi. aaaaaaaaaa") 5 = Ok [py "Hi."; py "aaaaaaaaaa"].
Proof. reflexivity. Qed.

Example split_ex4 :
  split_into_chunks (py "a    b") 2 = Ok [py "a "; py "  "; py "b"].
Proof. vm_compute. reflexivity. Qed.

Example split_ex5 :
  split_into_chunks (py "abc") 0 = Raise ValueError.
Proof. vm_compute. reflexivity. Qed.

Example split_ex6 :
  split_into_chunks (py "abc") (-3) = Raise IndexError.
Proof. vm_compute. reflexivity. Qed.

Example split_ex7 :
  split_into_chunks (py "One. Two? Three!") 100 = Ok [py "One. Two? Three!"].
Proof. vm_compute. reflexivity. Qed.

Lemma split_into_chunks_run (text : str) (n : Z) (chunks : list str) :
  split_into_chunks text n = Ok chunks ->
  exists st,
    for_each (split_step n) (sentence_end_re_split text) ([], []) = Ok st
    /\ split_inv n st (nows text)
    /\ chunks = (if truthy (strip (snd st)) then fst st ++ [strip (snd st)]
                 else if truthy (strip text) then fst st ++ [strip text]
                 else fst st).
Proof.
  unfold split_into_chunks. intros Hrun.
  destruct (for_each (split_step n) (sentence_end_re_split text) ([], []))
    as [[cs cur]|e] eqn:Hloop; simpl in Hrun; [|discriminate].
  exists (cs, cur). split; [reflexivity|]. split.
  - pose proof (for_each_split_inv n _ _ _ _ Hloop (split_inv_init n)) as Hinv.
    simpl in Hinv. now rewrite sentence_end_re_split_nows in Hinv.
  - simpl. destruct (truthy (strip cur)); [congruence|].
    destruct (truthy (strip text)); congruence.
Qed.

Lemma split_into_chunks_total (text : str) (n : Z) :
  1 <= n -> exists chunks, split_into_chunks text n = Ok chunks.
Proof.
  intros Hn.
  destruct (for_each_split_total n (sentence_end_re_split text) Hn ([], []))
    as [[cs cur] Hloop].
  unfold split_into_chunks. rewrite Hloop. simpl.
  destruct (truthy (strip cur)); [eauto|]. destruct (truthy (strip text)); eauto.
Qed.




(** The equality is blind to whitespace, not to words: a raw slice may end
    inside a word, and the join then puts a space there. *)
Example raw_slices_cut_words :
  split_into_chunks (py "abcdef") 2 = Ok [py "ab"; py "cd"; py "ef"]
  /\ join [SPACE] [py "ab"; py "cd"; py "ef"] = py "ab cd ef".
Proof. split; vm_compute; reflexivity. Qed.

(** C3, as stated, fails twice: a text of whitespace only is not empty and
    yields no chunk, and a raw slice of a long sentence can be blank. *)
Lemma split_blank_counterexample :
  py " " <> []
  /\ split_into_chunks (py " ") 10 = Ok []
  /\ split_into_chunks (py "a    b") 2 = Ok [py "a "; py "  "; py "b"]
  /\ blank (py "  ") = true.
Proof. repeat split; try discriminate; vm_compute; reflexivity. Qed.

(** C3, amended. For every input text with at least one non-whitespace
    character and every chunk bound of at least one, [split_into_chunks]
    returns at least one chunk; no returned chunk is empty, and a returned
    chunk of whitespace only is exactly as long as the bound (it is a raw
    slice of a sentence longer than the bound). *)
Theorem split_nonempty (text : str) (chunk_size : Z) :
  1 <= chunk_size -> blank text = false ->
  exists chunks,
    split_into_chunks text chunk_size = Ok chunks
    /\ chunks <> []
    /\ Forall (fun c => c <> [] /\ (blank c = true -> len c = chunk_size)) chunks.
Proof.
  intros Hn Htext.
  assert (Hw : nows text <> []).
  { intros E. apply nows_nil_blank in E. congruence. }
  destruct (for_each_split_total chunk_size (sentence_end_re_split text) Hn ([], []))
    as [[cs cur] Hloop].
  pose proof (for_each_split_inv _ _ _ _ _ Hloop (split_inv_init chunk_size)) as [Ht Hf He Hc].
  simpl in *. rewrite sentence_end_re_split_nows in *.
  assert (Hcur : ends_nonspace (strip cur)).
  { apply strip_of_ends, He. intros ->. now destruct (Hf eq_refl). }
  unfold split_into_chunks. rewrite Hloop. simpl.
  pose proof (ends_nonspace_nonempty _ Hcur) as Hne.
  apply truthy_true in Hne. rewrite Hne.
  eexists. split; [reflexivity|]. split.
  - now destruct cs.
  - apply Forall_app. split; [exact Hc|].
    constructor; [|constructor]. now apply good_chunk_ends.
Qed.

Lemma split_nonempty_witness :
  exists chunks,
    split_into_chunks (py "a    b") 2 = Ok chunks
    /\ chunks <> []
    /\ Forall (fun c => c <> [] /\ (blank c = true -> len c = 2)) chunks.
Proof. apply split_nonempty; [lia | vm_compute; reflexivity]. Defined.

(** C10. For every bound of at least one, [split_into_chunks] returns on
    every text. For every bound below one and every text with a sentence
    that is not whitespace only, it raises: [ValueError] for the zero step
    of [range] when the bound is zero, [IndexError] for the last element
    of an empty list of slices when the bound is negative. *)
Theorem split_total_or_raises (text : str) (chunk_size : Z) :
  (1 <= chunk_size -> exists chunks, split_into_chunks text chunk_size = Ok chunks)
  /\ (Exists (fun s => strip s <> []) (sentence_end_re_split text) ->
      (chunk_size = 0 -> split_into_chunks text chunk_size = Raise ValueError)
      /\ (chunk_size < 0 -> split_into_chunks text chunk_size = Raise IndexError)).
Proof.
  split.
  - apply split_into_chunks_total.
  - intros Hex. split; intros Hn.
    + unfold split_into_chunks.
      rewrite (for_each_split_raise chunk_size _ ltac:(lia) Hex). subst. reflexivity.
    + unfold split_into_chunks.
      rewrite (for_each_split_raise chunk_size _ ltac:(lia) Hex).
      destruct (Z.eqb_spec chunk_size 0); [lia|reflexivity].
Qed.

Lemma split_total_or_raises_witness :
  (exists chunks, split_into_chunks (py "Hi. Yo.") 3 = Ok chunks)
  /\ split_into_chunks (py "Hi.") 0 = Raise ValueError
  /\ split_into_chunks (py "Hi.") (-1) = Raise IndexError.
Proof.
  assert (Hex : Exists (fun s => strip s <> []) (sentence_end_re_split (py "Hi."))).
  { left. vm_compute. discriminate. }
  split; [|split].
  - apply (split_total_or_raises (py "Hi. Yo.") 3). lia.
  - apply (split_total_or_raises (py "Hi.") 0); [exact Hex | reflexivity].
  - apply (split_total_or_raises (py "Hi.") (-1)); [exact Hex | lia].
Defined.

(** ** Which chunks can exceed the bound *)

Lemma lstrip_length (s : str) : (List.length (lstrip s) <= List.length s)%nat.
Proof.
  induction s as [|c s IH]; simpl; [lia|]. destruct (isspace c); simpl; lia.
Qed.

Lemma strip_len (s : str) : len (strip s) <= len s.
Proof.
  unfold len, strip, rstrip. rewrite length_rev.
  pose proof (lstrip_length (rev (lstrip s))) as H1.
  pose proof (lstrip_length s) as H2. rewrite length_rev in H1. lia.
Qed.

(** Stripping on the right only removes a suffix. *)
Lemma rstrip_prefix (s : str) : exists w, s = rstrip s ++ w.
Proof.
  unfold rstrip. destruct (lstrip_suffix (rev s)) as [w Hw].
  exists (rev w). rewrite <- rev_app_distr, <- Hw. now rewrite rev_involutive.
Qed.

Lemma strip_idempotent (s : str) : strip (strip s) = strip s.
Proof.
  unfold strip at 1.
  assert (Hl : lstrip (strip s) = strip s).
  { unfold strip. destruct (lstrip_head s) as [E|(c & s' & E & Hc)].
    - rewrite E. reflexivity.
    - rewrite E. destruct (rstrip_prefix (c :: s')) as [w Hw].
      destruct (rstrip (c :: s')) as [|d t] eqn:Er; [reflexivity|].
      injection Hw as <- _. simpl. now rewrite Hc. }
  rewrite Hl. destruct (strip_ends s) as [E|E].
  - now rewrite E.
  - now apply rstrip_fixed.
Qed.

Lemma bounded_strip (n : Z) (sentences : list str) (c : str) :
  bounded n sentences c -> bounded n sentences (strip c).
Proof.
  intros [Hle|(s & Hin & -> & Hlt)].
  - left. pose proof (strip_len c). lia.
  - right. exists s. now rewrite strip_idempotent.
Qed.

Lemma split_step_bounded (n : Z) (sentences : list str)
  (st st' : list str * str) (sent0 : str) :
  In sent0 sentences ->
  split_step n st sent0 = Ok st' ->
  Forall (bounded n sentences) (fst st) /\ bounded n sentences (snd st) ->
  Forall (bounded n sentences) (fst st') /\ bounded n sentences (snd st').
Proof.
  destruct st as [chunks cur]. intros Hin Hcase [Hchunks Hcur].
  apply split_step_result in Hcase. simpl in *.
  assert (Hsent : bounded n sentences (strip sent0)).
  { destruct (Z.le_gt_cases (len (strip sent0)) n); [now left|].
    right. exists sent0. repeat split; auto; lia. }
  inversion Hcase
    as [Hs|Hs Hov Hne|Hs Hnil Hn|init seed Hs Hov Hnil Hn Hcat Hseed Hlen Hall|Hs Hfit];
    simpl.
  - auto.
  - split; [|exact Hsent]. apply Forall_app. split; [exact Hchunks|].
    constructor; [|constructor]. now apply bounded_strip.
  - split; [|now left]. apply Forall_app. split; [exact Hchunks|].
    eapply Forall_impl; [exact Hall|]. intros c Hc. simpl in Hc. left. lia.
  - split; [exact Hchunks|]. left.
    unfold len in *. rewrite !length_app. destruct (truthy cur) eqn:E.
    + simpl. lia.
    + apply truthy_false in E. subst cur. simpl in *. lia.
Qed.

Lemma for_each_split_bounded (n : Z) (sentences rest : list str) :
  (forall s, In s rest -> In s sentences) ->
  forall st st',
    for_each (split_step n) rest st = Ok st' ->
    Forall (bounded n sentences) (fst st) /\ bounded n sentences (snd st) ->
    Forall (bounded n sentences) (fst st') /\ bounded n sentences (snd st').
Proof.
  induction rest as [|s rest IH]; intros Hincl st st' Hrun Hst; simpl in Hrun.
  - now injection Hrun as <-.
  - destruct (split_step n st s) as [st1|e] eqn:Hstep; simpl in Hrun; [|discriminate].
    apply (IH (fun x Hx => Hincl x (or_intror Hx)) st1 st' Hrun).
    apply (split_step_bounded n sentences st st1 s); auto. apply Hincl. now left.
Qed.

(** Every returned chunk is within the bound, or it is a whole sentence
    longer than the bound, which the loop took over unsliced because the
    accumulator was not empty when the sentence came. *)
Lemma split_chunk_lengths (text : str) (n : Z) (chunks : list str) :
  1 <= n ->
  split_into_chunks text n = Ok chunks ->
  Forall (bounded n (sentence_end_re_split text)) chunks.
Proof.
  intros Hn Hrun.
  destruct (split_into_chunks_run _ _ _ Hrun) as ([cs cur] & Hloop & [Ht Hf He _] & ->).
  destruct (for_each_split_bounded n (sentence_end_re_split text)
              (sentence_end_re_split text) (fun s H => H) _ _ Hloop) as [Hcs Hcur].
  { split; [constructor|]. left. unfold len. simpl. lia. }
  simpl in *. destruct (truthy (strip cur)) eqn:Hstrip.
  - apply Forall_app. split; [exact Hcs|]. constructor; [|constructor].
    now apply bounded_strip.
  - apply truthy_false in Hstrip.
    assert (cur = []) as ->.
    { destruct cur as [|c cur]; [reflexivity|].
      assert (Hne : c :: cur <> []) by discriminate.
      apply He, strip_of_ends, ends_nonspace_nonempty in Hne. contradiction. }
    destruct (Hf eq_refl) as [-> Hw].
    assert (strip text = []) as ->.
    { destruct (strip text) eqn:E; [reflexivity|].
      assert (Hne : strip text <> []) by (rewrite E; discriminate).
      apply strip_nonempty_iff in Hne. now rewrite Hw in Hne. }
    constructor.
Qed.

(** C2. The code departs from the claim: a sentence longer than the bound
    that follows a non-empty accumulator is not sliced; it becomes the
    accumulator whole and is returned as one chunk longer than the bound. *)
Theorem split_long_sentence_unsliced :
  split_into_chunks (py "Hi. aaaaaaaaaa") 5 = Ok [py "Hi."; py "aaaaaaaaaa"]
  /\ len (py "aaaaaaaaaa") = 10.
Proof. split; vm_compute; reflexivity. Qed.

(** ** Traces *)

Lemma emit_then {A} (ev : event) (m : M A) :
  (emit ev ;; m) = (ev :: trace m, outcome m).
Proof. destruct m as [log r]. reflexivity. Qed.

(** ** The completion detector *)










(** ** The download stage *)

Lemma elem_of_new_files (before d : listing) (f : string) :
  f ∈ new_files d (list_to_set (listdir before)) <-> is_new before d f.
Proof.
  unfold new_files, is_new.
  rewrite elem_of_difference, !elem_of_list_to_set, !list_elem_of_In.
  rewrite List.filter_In, negb_true_iff. tauto.
Qed.

Lemma py_max_spec {A} (key : A -> Z) (xs : list A) :
  forall best,
    In (py_max key best xs) (best :: xs)
    /\ forall y, In y (best :: xs) -> key y <= key (py_max key best xs).
Proof.
  induction xs as [|x xs IH]; intros best; simpl.
  - split; [auto|]. intros y [<-|[]]. lia.
  - destruct (IH (if key x >? key best then x else best)) as [Hin Hmax].
    split.
    + destruct Hin as [Hin|Hin]; [|auto].
      rewrite <- Hin. destruct (key x >? key best); auto.
    + intros y Hy.
      assert (Hstep : key best <= key (if key x >? key best then x else best)
                      /\ key x <= key (if key x >? key best then x else best)).
      { destruct (Z.gtb_spec (key x) (key best)); lia. }
      destruct Hy as [<-|[<-|Hy]].
      * etransitivity; [apply Hstep|]. apply Hmax. now left.
      * etransitivity; [apply Hstep|]. apply Hmax. now left.
      * apply Hmax. now right.
Qed.

Lemma wait_from_first (dir : nat -> listing) (before : listing) :
  forall remaining k0 j,
    (j < remaining)%nat ->
    (exists f, is_new before (dir (k0 + j)%nat) f) ->
    (forall i f, (i < j)%nat -> ~ is_new before (dir (k0 + i)%nat) f) ->
    exists f,
      wait_for_new_download_from dir (list_to_set (listdir before)) k0 remaining
      = (idle_polls j ++ [ListDir], Ok f)
      /\ is_new before (dir (k0 + j)%nat) f
      /\ forall g, is_new before (dir (k0 + j)%nat) g ->
                   st_mtime (dir (k0 + j)%nat) g <= st_mtime (dir (k0 + j)%nat) f.
Proof.
  induction remaining as [|r IH]; intros k0 j Hj Hat Hbefore; [lia|].
  cbn [wait_for_new_download_from]. rewrite emit_then.
  destruct j as [|j].
  - rewrite Nat.add_0_r in *.
    destruct (elements (new_files (dir k0) (list_to_set (listdir before))))
      as [|f fs] eqn:E.
    + destruct Hat as [f Hf]. apply elem_of_new_files, elem_of_elements in Hf.
      rewrite E in Hf. inversion Hf.
    + destruct (py_max_spec (st_mtime (dir k0)) fs f) as [Hin Hmax].
      exists (py_max (st_mtime (dir k0)) f fs). split; [reflexivity|]. split.
      * apply elem_of_new_files, elem_of_elements. rewrite E.
        now apply list_elem_of_In.
      * intros g Hg. apply Hmax.
        apply elem_of_new_files, elem_of_elements in Hg. rewrite E in Hg.
        now apply list_elem_of_In.
  - destruct (elements (new_files (dir k0) (list_to_set (listdir before))))
      as [|f fs] eqn:E.
    + destruct (IH (S k0) j) as (f & Hrun & Hnew & Hmax); try lia.
      * now replace (S k0 + j)%nat with (k0 + S j)%nat by lia.
      * intros i g Hi. replace (S k0 + i)%nat with (k0 + S i)%nat by lia.
        apply Hbefore. lia.
      * exists f. rewrite emit_then, Hrun.
        replace (k0 + S j)%nat with (S k0 + j)%nat by lia. auto.
    + exfalso. apply (Hbefore 0%nat f); [lia|]. rewrite Nat.add_0_r.
      apply elem_of_new_files, elem_of_elements. rewrite E. left.
Qed.

Lemma wait_from_never (dir : nat -> listing) (before : listing) :
  forall remaining k0,
    (forall i f, (i < remaining)%nat -> ~ is_new before (dir (k0 + i)%nat) f) ->
    wait_for_new_download_from dir (list_to_set (listdir before)) k0 remaining
    = (idle_polls remaining,
       Raise (TimeoutError "Download did not complete within allotted time")).
Proof.
  induction remaining as [|r IH]; intros k0 Hnever; [reflexivity|].
  cbn [wait_for_new_download_from]. rewrite emit_then.
  destruct (elements (new_files (dir k0) (list_to_set (listdir before))))
    as [|f fs] eqn:E.
  - rewrite emit_then, IH; [reflexivity|].
    intros i g Hi. replace (S k0 + i)%nat with (k0 + S i)%nat by lia.
    apply Hnever. lia.
  - exfalso. apply (Hnever 0%nat f); [lia|]. rewrite Nat.add_0_r.
    apply elem_of_new_files, elem_of_elements. rewrite E. left.
Qed.

Lemma download_stage_first (idx : nat) (max_wait : Z)
  (before : listing) (dir : nat -> listing) (k : nat) :
  (k < Z.to_nat (2 * max_wait))%nat ->
  (exists f, is_new before (dir k) f) ->
  (forall j f, (j < k)%nat -> ~ is_new before (dir j) f) ->
  exists f,
    download_stage idx max_wait before dir
    = (ListDir :: Click DOWNLOAD_BTN_CLICK_XPATH :: idle_polls k ++ [ListDir],
       Ok f)
    /\ is_new before (dir k) f
    /\ forall g, is_new before (dir k) g ->
                 st_mtime (dir k) g <= st_mtime (dir k) f.
Proof.
  intros Hk Hat Hbefore.
  destruct (wait_from_first dir before (Z.to_nat (2 * max_wait)) 0 k Hk Hat Hbefore)
    as (f & Hrun & Hnew & Hmax).
  exists f. split; [|auto].
  unfold download_stage, wait_for_new_download.
  rewrite !emit_then, Hrun. reflexivity.
Qed.

Lemma download_stage_never (idx : nat) (max_wait : Z)
  (before : listing) (dir : nat -> listing) :
  (forall k f, (k < Z.to_nat (2 * max_wait))%nat -> ~ is_new before (dir k) f) ->
  download_stage idx max_wait before dir
  = (ListDir :: Click DOWNLOAD_BTN_CLICK_XPATH
       :: idle_polls (Z.to_nat (2 * max_wait)),
     Raise (RuntimeError
              ("Timed out waiting for download for chunk " +:+ decimal idx))).
Proof.
  intros Hnever.
  unfold download_stage, wait_for_new_download.
  rewrite !emit_then, (wait_from_never dir before _ 0 Hnever).
  unfold try_except, raise, trace, outcome. simpl fst. simpl snd.
  now rewrite app_nil_r.
Qed.

(** C5. In the download stage of every chunk the directory is listed
    before the download button is clicked; the directory is then polled
    every half second, for as long as less than [max_wait] seconds have
    passed, until a file shows up that was not in that first listing and
    whose name does not end in [.crdownload]; of the new files of that
    poll the most recently modified is returned; if none shows up in time,
    the download-timed-out error of that chunk is raised. *)
Theorem download_stage_spec (idx : nat) (max_wait : Z)
  (before : listing) (dir : nat -> listing) :
  (forall k,
      (k < Z.to_nat (2 * max_wait))%nat ->
      (exists f, is_new before (dir k) f) ->
      (forall j f, (j < k)%nat -> ~ is_new before (dir j) f) ->
      exists f,
        download_stage idx max_wait before dir
        = (ListDir :: Click DOWNLOAD_BTN_CLICK_XPATH :: idle_polls k ++ [ListDir],
           Ok f)
        /\ is_new before (dir k) f
        /\ forall g, is_new before (dir k) g ->
                     st_mtime (dir k) g <= st_mtime (dir k) f)
  /\ ((forall k f, (k < Z.to_nat (2 * max_wait))%nat -> ~ is_new before (dir k) f) ->
      download_stage idx max_wait before dir
      = (ListDir :: Click DOWNLOAD_BTN_CLICK_XPATH
           :: idle_polls (Z.to_nat (2 * max_wait)),
         Raise (RuntimeError
                  ("Timed out waiting for download for chunk " +:+ decimal idx)))).
Proof.
  split.
  - apply download_stage_first.
  - apply download_stage_never.
Qed.

Lemma download_stage_spec_witness :
  (exists f,
      download_stage 2 5 dir_before_example dir_after_example
      = ([ListDir; Click DOWNLOAD_BTN_CLICK_XPATH;
          ListDir; Sleep 500; ListDir; Sleep 500; ListDir], Ok f)
      /\ is_new dir_before_example (dir_after_example 2) f
      /\ forall g, is_new dir_before_example (dir_after_example 2) g ->
                   st_mtime (dir_after_example 2) g
                   <= st_mtime (dir_after_example 2) f)
  /\ download_stage 2 1 dir_before_example (fun _ => dir_before_example)
     = ([ListDir; Click DOWNLOAD_BTN_CLICK_XPATH;
         ListDir; Sleep 500; ListDir; Sleep 500],
        Raise (RuntimeError "Timed out waiting for download for chunk 2")).
Proof.
  split.
  - apply (proj1 (download_stage_spec 2 5 dir_before_example dir_after_example) 2%nat).
    + simpl. lia.
    + exists "audio.mp3"%string. unfold is_new. simpl. split; [auto|].
      split; [reflexivity|]. intros [H|[]]. discriminate.
    + intros j f Hj (Hin & Hsuffix & Hold).
      assert (Hcases : f = "part_0001.mp3"%string \/ f = "audio.mp3.crdownload"%string).
      { destruct j as [|[|j]]; [| |lia]; simpl in Hin; intuition. }
      destruct Hcases as [-> | ->].
      * apply Hold. simpl. auto.
      * vm_compute in Hsuffix. discriminate.
  - apply (proj2 (download_stage_spec 2 1 dir_before_example (fun _ => dir_before_example))).
    intros k f _ (Hin & _ & Hold). contradiction.
Defined.

Example download_stage_example :
  download_stage 2 5 dir_before_example dir_after_example
  = ([ListDir; Click DOWNLOAD_BTN_CLICK_XPATH;
      ListDir; Sleep 500; ListDir; Sleep 500; ListDir], Ok "audio.mp3"%string).
Proof. vm_compute. reflexivity. Qed.

(** ** The order of strings *)

Lemma ascii_compare_refl (c : ascii) : Ascii.compare c c = Eq.
Proof. apply N.compare_refl. Qed.

Lemma ascii_lt_trans (a b c : ascii) :
  Ascii.compare a b = Lt -> Ascii.compare b c = Lt -> Ascii.compare a c = Lt.
Proof.
  unfold Ascii.compare. rewrite !N.compare_lt_iff. apply N.lt_trans.
Qed.

Lemma string_compare_refl (s : string) : String.compare s s = Eq.
Proof.
  induction s as [|c s IH]; simpl; [reflexivity|].
  now rewrite ascii_compare_refl.
Qed.

Lemma string_lt_trans (a b c : string) :
  String.compare a b = Lt -> String.compare b c = Lt -> String.compare a c = Lt.
Proof.
  revert b c. induction a as [|x a IH]; intros [|y b] [|z c]; simpl;
    try congruence.
  destruct (Ascii.compare x y) eqn:Exy; try discriminate;
    destruct (Ascii.compare y z) eqn:Eyz; try discriminate; intros Hab Hbc.
  - apply Ascii.compare_eq_iff in Exy, Eyz. subst.
    rewrite ascii_compare_refl. eauto.
  - apply Ascii.compare_eq_iff in Exy. subst. now rewrite Eyz.
  - apply Ascii.compare_eq_iff in Eyz. subst. now rewrite Exy.
  - now rewrite (ascii_lt_trans _ _ _ Exy Eyz).
Qed.

Lemma string_leb_iff (a b : string) :
  String.leb a b = true <-> String.compare a b = Lt \/ a = b.
Proof.
  unfold String.leb. destruct (String.compare a b) eqn:E.
  - apply String.compare_eq_iff in E. tauto.
  - tauto.
  - split; [discriminate|]. intros [H| ->]; [discriminate|].
    now rewrite string_compare_refl in E.
Qed.

Lemma string_leb_trans : Transitive (fun a b => is_true (String.leb a b)).
Proof.
  intros a b c Hab Hbc. unfold is_true in *.
  apply string_leb_iff in Hab, Hbc. apply string_leb_iff.
  destruct Hab as [Hab| ->]; [|exact Hbc].
  destruct Hbc as [Hbc| <-]; [|now left].
  left. eapply string_lt_trans; eauto.
Qed.



(** A sorted list is determined by its elements. *)
Lemma sorted_permutation_unique (l1 l2 : list string) :
  StronglySorted (fun a b => is_true (String.leb a b)) l1 ->
  StronglySorted (fun a b => is_true (String.leb a b)) l2 ->
  Permutation l1 l2 ->
  l1 = l2.
Proof.
  revert l2. induction l1 as [|x l1 IH]; intros l2 H1 H2 Hperm.
  - now apply Permutation_nil in Hperm.
  - destruct l2 as [|y l2].
    { apply Permutation_sym, Permutation_nil in Hperm. discriminate. }
    apply StronglySorted_inv in H1 as [H1 Hx].
    apply StronglySorted_inv in H2 as [H2 Hy].
    assert (Hxy : x = y).
    { assert (Hx_in : In x (y :: l2)).
      { eapply Permutation_in; [exact Hperm|]. now left. }
      assert (Hy_in : In y (x :: l1)).
      { eapply Permutation_in; [apply Permutation_sym; exact Hperm|]. now left. }
      destruct Hx_in as [->|Hx_in]; [reflexivity|].
      destruct Hy_in as [->|Hy_in]; [reflexivity|].
      rewrite List.Forall_forall in Hx, Hy.
      apply String.leb_antisym; [apply Hx | apply Hy]; assumption. }
    subst y. f_equal. apply IH; auto.
    eapply Permutation_cons_inv; eauto.
Qed.

(** ** Ordered names *)









(** ** The renames of a run *)

Lemma trace_bind {A B} (m : M A) (k : A -> M B) :
  trace (mbindM m k)
  = trace m ++ match outcome m with
               | Ok a => trace (k a)
               | Raise _ => []
               end.
Proof.
  destruct m as [log [a|e]]; simpl.
  - now destruct (k a).
  - now rewrite app_nil_r.
Qed.

Lemma outcome_bind {A B} (m : M A) (k : A -> M B) :
  outcome (mbindM m k)
  = match outcome m with
    | Ok a => outcome (k a)
    | Raise e => Raise e
    end.
Proof.
  destruct m as [log [a|e]]; simpl; [|reflexivity]. now destruct (k a).
Qed.

Lemma renamed_app (a b : list event) : renamed (a ++ b) = renamed a ++ renamed b.
Proof. apply flat_map_app. Qed.

(** A handler that only raises again adds nothing to the trace. *)
Lemma trace_try_except_raise {A} (m : M A) (h : exn -> option (M A)) :
  (forall e, match h e with Some x => trace x = [] | None => True end) ->
  trace (try_except m h) = trace m.
Proof.
  intros Hh. destruct m as [log [a|e]]; simpl; [reflexivity|].
  specialize (Hh e). destruct (h e) as [[log' r]|]; simpl in *; [|reflexivity].
  subst. apply app_nil_r.
Qed.







Lemma outcome_try_finally_quit {A} (m : M A) :
  outcome (try_finally m (emit Quit)) = outcome m
  /\ trace (try_finally m (emit Quit)) = trace m ++ [Quit].
Proof. now destruct m as [log r]. Qed.







(** ** The assembler *)

Section Assembler.
Context {segment : Type} `{Codec segment}.
Variable from_file : string -> result segment.


End Assembler.



(** ** The two ceilings *)

Lemma bind_ok {A B} (log : list event) (a : A) (k : A -> M B) :
  mbindM (log, Ok a) k = (log ++ trace (k a), outcome (k a)).
Proof. simpl. now destruct (k a). Qed.

Lemma bind_raise {A B} (log : list event) (e : exn) (k : A -> M B) :
  mbindM (log, Raise e) k = (log, Raise e).
Proof. reflexivity. Qed.

Lemma lift_ok_then {A B} (a : A) (m : M B) : (lift (Ok a) ;; m) = m.
Proof. unfold lift. rewrite bind_ok. now destruct m. Qed.









(** ** The cleanup *)

Lemma cleanup_run (VERBOSE : bool) (rmtree : nat -> result unit) :
  (forall k e, rmtree k = Raise e -> is_Exception e = true) ->
  cleanup VERBOSE rmtree = (cleanup_trace VERBOSE rmtree, Ok tt).
Proof.
  intros Hexn. unfold cleanup, cleanup_trace. cbn [cleanup_from].
  destruct (rmtree 0%nat) as [[]|e0] eqn:E0; [now destruct VERBOSE|].
  rewrite (Hexn _ _ E0).
  destruct (rmtree 1%nat) as [[]|e1] eqn:E1; [now destruct VERBOSE|].
  rewrite (Hexn _ _ E1).
  destruct (rmtree 2%nat) as [[]|e2] eqn:E2; [now destruct VERBOSE|].
  rewrite (Hexn _ _ E2). now destruct VERBOSE.
Qed.

(** C9, as stated, fails under [--quiet]: the warnings go through
    [vprint], which prints nothing then, so three failed attempts leave no
    warning. *)
Lemma cleanup_quiet_counterexample :
  cleanup false (fun _ => Raise OSError)
  = ([Rmtree; Sleep 2000; Rmtree; Sleep 2000; Rmtree], Ok tt).
Proof. reflexivity. Qed.

(** C9, amended. Once the final audio is produced, the cleanup tries to
    remove the download directory at most three times, sleeps two seconds
    after the first and after the second failure, and never raises to the
    caller when the removal fails with an [Exception]; after the third
    failure it stops and the directory stays. Its messages, also the
    warning after the third failure, are printed unless [--quiet] is
    given. The run succeeds with the final audio whether or not the
    removal succeeded. *)
Theorem cleanup_best_effort {segment : Type} `{Codec segment}
  (argv : list cli_option) (a : args) (w : world segment) (final : segment) :
  parse_args argv = Ok a ->
  outcome (convert a w) = Ok final ->
  (forall k e, rmtree w k = Raise e -> is_Exception e = true) ->
  outcome (main argv w) = Ok final
  /\ trace (main argv w)
     = trace (convert a w) ++ cleanup_trace (negb (arg_quiet a)) (rmtree w)
  /\ (attempts (cleanup_trace (negb (arg_quiet a)) (rmtree w)) <= 3)%nat
  /\ (removed (rmtree w 0%nat) = false ->
      removed (rmtree w 1%nat) = false ->
      removed (rmtree w 2%nat) = false ->
      cleanup_trace (negb (arg_quiet a)) (rmtree w)
      = Rmtree :: say (negb (arg_quiet a)) WarnRemoveFailed ++ Sleep 2000
        :: Rmtree :: say (negb (arg_quiet a)) WarnRemoveFailed ++ Sleep 2000
        :: Rmtree :: say (negb (arg_quiet a)) WarnRemoveFailed
        ++ say (negb (arg_quiet a)) WarnLeftBehind).
Proof.
  intros Hparse Hconv Hexn.
  assert (Hmain : main argv w
                  = (trace (convert a w) ++ cleanup_trace (negb (arg_quiet a)) (rmtree w),
                     Ok final)).
  { unfold main. rewrite Hparse. unfold lift. rewrite bind_ok.
    destruct (convert a w) as [log r] eqn:E. simpl in Hconv. subst r.
    cbn [mbindM]. rewrite (cleanup_run _ _ Hexn). cbn [mbindM ret trace outcome fst snd].
    now rewrite !app_nil_r. }
  rewrite Hmain. split; [reflexivity|]. split; [reflexivity|]. split.
  - unfold cleanup_trace, attempts, say.
    destruct (removed (rmtree w 0%nat)), (removed (rmtree w 1%nat)),
      (removed (rmtree w 2%nat)), (negb (arg_quiet a)); simpl; lia.
  - intros H0 H1 H2. unfold cleanup_trace. now rewrite H0, H1, H2.
Qed.

Lemma cleanup_best_effort_witness :
  outcome (@main _ samples_codec [OptOut "out.mp3"] stuck_world) = Ok [1]
  /\ cleanup_trace true (rmtree stuck_world)
     = [Rmtree; Print WarnRemoveFailed; Sleep 2000;
        Rmtree; Print WarnRemoveFailed; Sleep 2000;
        Rmtree; Print WarnRemoveFailed; Print WarnLeftBehind].
Proof.
  destruct (@cleanup_best_effort _ samples_codec [OptOut "out.mp3"]
              (default_args "out.mp3") stuck_world [1]) as (Hout & _ & _ & Hall).
  - reflexivity.
  - vm_compute. reflexivity.
  - intros k e [= <-]. reflexivity.
  - split; [exact Hout|]. apply Hall; reflexivity.
Defined.

(** * Further properties *)

(** ** The pieces of the sentence pattern *)

Lemma re_split_from_ends (s : str) :
  forall st piece,
    match st with
    | InPiece true => ends_sentence (rev piece)
    | _ => True
    end ->
    exists init last,
      re_split_from st piece s = init ++ [last] /\ Forall ends_sentence init.
Proof.
  induction s as [|c s IH]; intros st piece Hst; cbn [re_split_from].
  - exists [], (rev piece). split; [reflexivity|constructor].
  - assert (Hnext : match InPiece (is_sentence_end c) with
                    | InPiece true => ends_sentence (rev (c :: piece))
                    | _ => True
                    end).
    { destruct (is_sentence_end c) eqn:E; [|exact I].
      exists (rev piece), c. auto. }
    destruct st as [[|]|].
    + destruct (isspace c) eqn:E; cbn [andb].
      * destruct (IH InSeparator [] I) as (init & last & -> & Hinit).
        exists (rev piece :: init), last. split; [reflexivity|].
        constructor; assumption.
      * apply IH, Hnext.
    + cbn [andb]. apply IH, Hnext.
    + destruct (isspace c); [apply IH; exact I | apply IH, Hnext].
Qed.

(** The pieces that follow a separator. *)
Lemma re_split_from_starts (s : str) :
  forall st piece,
    match st with
    | InPiece _ => piece <> [] /\ starts_clean (rev piece)
    | InSeparator => piece = []
    end ->
    Forall starts_clean (re_split_from st piece s).
Proof.
  induction s as [|c s IH]; intros st piece Hst; cbn [re_split_from].
  - constructor; [|constructor].
    destruct st; [apply Hst | subst; now left].
  - assert (Hkeep : piece <> [] /\ starts_clean (rev piece) ->
                    (c :: piece) <> [] /\ starts_clean (rev (c :: piece))).
    { intros [Hne [E|(d & t & E & Hd)]].
      - destruct piece; [contradiction|].
        apply (f_equal (@List.length _)) in E. simpl in E.
        rewrite length_app in E. simpl in E. lia.
      - split; [discriminate|]. right. exists d, (t ++ [c]).
        simpl. rewrite E. auto. }
    destruct st as [b|].
    + destruct (b && isspace c).
      * constructor; [apply Hst|]. now apply IH.
      * apply IH, Hkeep, Hst.
    + subst piece. destruct (isspace c) eqn:E.
      * now apply IH.
      * apply IH. split; [discriminate|]. right. exists c, []. auto.
Qed.

Lemma re_split_tail_starts (s : str) :
  forall b piece,
    exists first rest,
      re_split_from (InPiece b) piece s = first :: rest
      /\ Forall starts_clean rest.
Proof.
  induction s as [|c s IH]; intros b piece; cbn [re_split_from].
  - exists (rev piece), []. split; [reflexivity|constructor].
  - destruct (b && isspace c).
    + exists (rev piece), (re_split_from InSeparator [] s).
      split; [reflexivity|]. now apply re_split_from_starts.
    + apply IH.
Qed.

(** X1. The split on the sentence pattern returns at least one piece;
    every piece but the last ends in [.], [!] or [?], and every piece but
    the first is empty or starts with a character that is not
    whitespace. *)
Theorem sentence_pieces (text : str) :
  exists init last,
    sentence_end_re_split text = init ++ [last]
    /\ Forall ends_sentence init
    /\ Forall starts_clean (List.tl (init ++ [last])).
Proof.
  destruct (re_split_from_ends text (InPiece false) [] I) as (init & last & E & Hends).
  destruct (re_split_tail_starts text false []) as (first & rest & E' & Hstarts).
  fold (sentence_end_re_split text) in E, E'.
  exists init, last. split; [exact E|]. split; [exact Hends|].
  rewrite <- E, E'. exact Hstarts.
Qed.

(** ** The splitter on blank and on short texts *)

Lemma nows_concat_nil (l : list str) :
  nows (List.concat l) = [] -> forall p, In p l -> nows p = [].
Proof.
  induction l as [|x l IH]; intros H p Hp; [contradiction|].
  simpl in H. rewrite nows_app in H. apply app_eq_nil in H as [Hx Hl].
  destruct Hp as [<-|Hp]; auto.
Qed.

Lemma strip_nil_of_nows (s : str) : nows s = [] -> strip s = [].
Proof.
  intros H. destruct (strip s) eqn:E; [reflexivity|].
  assert (Hne : strip s <> []) by (rewrite E; discriminate).
  apply strip_nonempty_iff in Hne. contradiction.
Qed.

Lemma split_step_skip (n : Z) (st : list str * str) (p : str) :
  strip p = [] -> split_step n st p = Ok st.
Proof. intros E. destruct st as [cs cur]. unfold split_step. now rewrite E. Qed.

Lemma for_each_skip (n : Z) (pieces : list str) (st : list str * str) :
  (forall p, In p pieces -> strip p = []) ->
  for_each (split_step n) pieces st = Ok st.
Proof.
  induction pieces as [|p rest IH]; intros H; cbn [for_each]; [reflexivity|].
  rewrite split_step_skip by (apply H; now left). cbn [bind].
  apply IH. intros q Hq. apply H. now right.
Qed.

Lemma split_into_chunks_blank (text : str) (n : Z) :
  blank text = true -> split_into_chunks text n = Ok [].
Proof.
  intros Hblank. apply nows_nil_blank in Hblank.
  unfold split_into_chunks. rewrite for_each_skip.
  - cbn [bind]. change (strip []) with (@nil char). cbn [truthy].
    now rewrite (strip_nil_of_nows _ Hblank).
  - intros p Hp. apply strip_nil_of_nows.
    apply (nows_concat_nil (sentence_end_re_split text)); [|exact Hp].
    now rewrite sentence_end_re_split_nows.
Qed.

(** X2. A text that is empty or made of whitespace only yields no chunk,
    for every chunk bound, also a bound of zero or below: nothing is
    raised. *)
Theorem split_blank (text : str) (chunk_size : Z) :
  blank text = true -> split_into_chunks text chunk_size = Ok [].
Proof. apply split_into_chunks_blank. Qed.

Lemma split_blank_witness :
  split_into_chunks (py "  ") 0 = Ok [] /\ split_into_chunks (py "") (-4) = Ok [].
Proof. split; apply split_blank; reflexivity. Defined.














(** ** Chunks, the bound and the ends of sentences *)

(** X4. For a chunk bound of at least one and a text in which every
    sentence, stripped, is at most as long as the bound, no returned chunk
    is longer than the bound. *)
Theorem split_within_bound (text : str) (chunk_size : Z) (chunks : list str) :
  1 <= chunk_size ->
  (forall p, In p (sentence_end_re_split text) -> len (strip p) <= chunk_size) ->
  split_into_chunks text chunk_size = Ok chunks ->
  Forall (fun c => len c <= chunk_size) chunks.
Proof.
  intros Hn Hshort Hrun.
  pose proof (split_chunk_lengths text chunk_size chunks Hn Hrun) as Hall.
  eapply Forall_impl; [exact Hall|]. simpl.
  intros c Hb. destruct Hb as [Hc|(p & Hp & Ec & Hlong)]; [exact Hc|].
  subst c. specialize (Hshort p Hp). lia.
Qed.

Lemma split_within_bound_witness :
  Forall (fun c => len c <= 10) [py "One. Two?"; py "Three!"; py "Four."].
Proof.
  apply (split_within_bound (py "One.  Two? Three! Four.") 10); [lia| |].
  - intros p Hp. vm_compute in Hp.
    destruct Hp as [<-|[<-|[<-|[<-|[]]]]]; vm_compute; discriminate.
  - vm_compute. reflexivity.
Defined.

Lemma ends_sentence_nonspace (s : str) : ends_sentence s -> ends_nonspace s.
Proof.
  intros (s' & c & -> & Hc). exists s', c. split; [reflexivity|].
  unfold is_sentence_end in Hc.
  apply orb_true_iff in Hc as [Hc|Hc]; [apply orb_true_iff in Hc as [Hc|Hc]|];
    apply N.eqb_eq in Hc; subst c; reflexivity.
Qed.

Lemma ends_sentence_app (a b : str) : ends_sentence b -> ends_sentence (a ++ b).
Proof.
  intros (s' & c & -> & Hc). exists (a ++ s'), c. now rewrite app_assoc.
Qed.

Lemma ends_sentence_suffix (a b : str) :
  ends_sentence (a ++ b) -> b <> [] -> ends_sentence b.
Proof.
  intros (s' & c & E & Hc) Hb.
  destruct (exists_last Hb) as (b' & d & ->).
  rewrite app_assoc in E. apply app_inj_tail in E as [_ ->].
  now exists b', c.
Qed.

(** Stripping keeps the last character of a text that ends a sentence. *)
Lemma strip_ends_sentence (s : str) : ends_sentence s -> ends_sentence (strip s).
Proof.
  intros Hs. pose proof (ends_sentence_nonspace _ Hs) as Hns.
  unfold strip. destruct (lstrip_suffix s) as [w Hw].
  assert (Hl : lstrip s <> []).
  { intros E. apply ends_nonspace_nows in Hns.
    rewrite <- lstrip_nows, E in Hns. now elim Hns. }
  assert (He : ends_sentence (lstrip s)).
  { apply (ends_sentence_suffix w); [now rewrite <- Hw|exact Hl]. }
  rewrite rstrip_fixed; [exact He|]. now apply ends_sentence_nonspace.
Qed.

Lemma split_step_closed (n : Z) (st st' : list str * str) (p : str) :
  ends_sentence p ->
  split_step n st p = Ok st' ->
  Forall (closed_chunk n) (fst st) /\ (snd st = [] \/ ends_sentence (snd st)) ->
  Forall (closed_chunk n) (fst st') /\ (snd st' = [] \/ ends_sentence (snd st')).
Proof.
  destruct st as [chunks cur]. intros Hp Hcase [Hchunks Hcur].
  apply split_step_result in Hcase. simpl in *.
  apply strip_ends_sentence in Hp.
  inversion Hcase
    as [Hs|Hs Hov Hne|Hs Hnil Hn|init seed Hs Hov Hnil Hn Hcat Hseed Hlen Hall|Hs Hfit];
    simpl.
  - auto.
  - split; [|now right]. apply Forall_app. split; [exact Hchunks|].
    constructor; [|constructor]. left.
    destruct Hcur as [E|Hcur]; [contradiction|]. now apply strip_ends_sentence.
  - split.
    + apply Forall_app. split; [exact Hchunks|].
      eapply Forall_impl; [exact Hall|]. intros c Hc. now right.
    + right. apply (ends_sentence_suffix (List.concat init)); [|exact Hseed].
      now rewrite Hcat.
  - split; [exact Hchunks|]. right. rewrite app_assoc. now apply ends_sentence_app.
Qed.

Lemma for_each_split_closed (n : Z) (pieces : list str) :
  Forall ends_sentence pieces ->
  forall st st',
    for_each (split_step n) pieces st = Ok st' ->
    Forall (closed_chunk n) (fst st) /\ (snd st = [] \/ ends_sentence (snd st)) ->
    Forall (closed_chunk n) (fst st') /\ (snd st' = [] \/ ends_sentence (snd st')).
Proof.
  induction 1 as [|p rest Hp Hrest IH]; intros st st' Hrun Hst; cbn [for_each] in Hrun.
  - now injection Hrun as <-.
  - destruct (split_step n st p) as [st1|e] eqn:Hstep; cbn [bind] in Hrun; [|discriminate].
    apply (IH st1 st' Hrun). now apply (split_step_closed n st st1 p).
Qed.

Lemma for_each_app {A S} (body : S -> A -> result S) (l1 l2 : list A) (s : S) :
  for_each body (l1 ++ l2) s
  = do s1 <- for_each body l1 s; for_each body l2 s1.
Proof.
  revert s. induction l1 as [|x l1 IH]; intros s; cbn [for_each app bind].
  - reflexivity.
  - destruct (body s x) as [s'|e]; cbn [bind]; [apply IH|reflexivity].
Qed.

(** X5. Chunks are cut at the ends of sentences: every returned chunk
    but the last ends in [.], [!] or [?], or is exactly as long as the
    chunk bound (a raw slice of a sentence longer than the bound). *)
Theorem split_at_sentence_ends (text : str) (chunk_size : Z) (chunks : list str) :
  split_into_chunks text chunk_size = Ok chunks ->
  Forall (fun c => ends_sentence c \/ len c = chunk_size) (removelast chunks).
Proof.
  intros Hrun.
  destruct (split_into_chunks_run _ _ _ Hrun) as ([cs cur] & Hloop & [Ht Hf He _] & ->).
  destruct (re_split_from_ends text (InPiece false) [] I) as (init & last & E & Hinit).
  fold (sentence_end_re_split text) in E. rewrite E, for_each_app in Hloop.
  destruct (for_each (split_step chunk_size) init ([], [])) as [st1|e] eqn:H1;
    cbn [bind] in Hloop; [|discriminate].
  destruct (for_each_split_closed chunk_size init Hinit _ _ H1) as [Hcs1 Hcur1].
  { split; [constructor|now left]. }
  cbn [for_each] in Hloop.
  destruct (split_step chunk_size st1 last) as [st2|e] eqn:H2;
    cbn [bind] in Hloop; [|discriminate].
  injection Hloop as ->. destruct st1 as [cs1 cur1].
  apply split_step_result in H2. simpl in *.
  assert (Hcs : Forall (closed_chunk chunk_size) cs).
  { inversion H2
      as [Hs|Hs Hov Hne|Hs Hnil Hn|init' seed Hs Hov Hnil Hn Hcat Hseed Hlen Hall|Hs Hfit];
      subst; auto.
    - apply Forall_app. split; [exact Hcs1|]. constructor; [|constructor].
      left. destruct Hcur1 as [?|Hc]; [contradiction|]. now apply strip_ends_sentence.
    - apply Forall_app. split; [exact Hcs1|].
      eapply Forall_impl; [exact Hall|]. intros c Hc. now right. }
  destruct (truthy (strip cur)); [now rewrite removelast_last|].
  destruct (truthy (strip text)); [now rewrite removelast_last|].
  clear -Hcs. induction Hcs as [|c l Hc Hl IH]; [constructor|].
  destruct l; [constructor|]. simpl. constructor; [exact Hc|exact IH].
Qed.

Lemma split_at_sentence_ends_witness :
  Forall (fun c => ends_sentence c \/ len c = 4)
    (removelast [py "abcd"; py "efgh"; py "ij?"; py "Hi!"; py "End"]).
Proof.
  apply (split_at_sentence_ends (py "abcdefghij? Hi! End") 4).
  vm_compute. reflexivity.
Defined.

(** ** The download wait *)




(** ** The detector on a page that does not change *)




(** ** The run of a chunk *)

Lemma until_from_quiet {A} (method : A -> bool) (obs : nat -> A) :
  forall remaining k,
    forallb quiet_event (trace (until_from method obs k remaining)) = true.
Proof.
  induction remaining as [|r IH]; intros k; cbn [until_from]; [reflexivity|].
  destruct (method (obs k)); [reflexivity|].
  rewrite emit_then. unfold trace at 1. cbn [fst forallb quiet_event andb].
  apply IH.
Qed.

Lemma wait_from_quiet (dir : nat -> listing) (known : gset string) :
  forall remaining k,
    forallb quiet_event (trace (wait_for_new_download_from dir known k remaining)) = true.
Proof.
  induction remaining as [|r IH]; intros k;
    cbn [wait_for_new_download_from]; [reflexivity|].
  rewrite emit_then. unfold trace at 1. cbn [fst forallb quiet_event andb].
  destruct (elements (new_files (dir k) known)); [|reflexivity].
  rewrite emit_then. unfold trace at 1. cbn [fst forallb quiet_event andb].
  apply IH.
Qed.

Lemma await_generation_quiet idx a b c pages :
  forallb quiet_event (trace (await_generation idx a b c pages)) = true.
Proof.
  unfold await_generation. rewrite trace_try_except_raise.
  - apply until_from_quiet.
  - now intros [].
Qed.

Lemma download_stage_quiet idx max_wait before dir :
  forallb quiet_event (trace (download_stage idx max_wait before dir)) = true.
Proof.
  unfold download_stage. cbv zeta. rewrite !emit_then.
  unfold trace at 1 2. cbn [fst forallb quiet_event andb].
  rewrite trace_try_except_raise.
  - apply wait_from_quiet.
  - now intros [].
Qed.

Lemma process_chunk_run idx chunk fmt max_wait w :
  chunk_run idx chunk fmt w (process_chunk idx chunk fmt max_wait w).
Proof.
  unfold process_chunk. cbv zeta.
  destruct (textarea w) as [[]|e]; [|apply RunNoTextarea].
  rewrite lift_ok_then, emit_then.
  destruct (generate_button w) as [[]|e].
  2:{ unfold lift. rewrite bind_raise. now apply RunStopped. }
  rewrite lift_ok_then, emit_then.
  pose proof (await_generation_quiet idx
                (get_attr_safe (page_before w) MAIN_AUDIO_XPATH "src")
                (get_attr_safe (page_before w) HIDDEN_AUDIO_XPATH "src")
                (get_attr_safe (page_before w) DOWNLOAD_ANCHOR_XPATH "href")
                (page_after w)) as Qa.
  destruct (await_generation _ _ _ _ _) as [la [ka|ea]].
  2:{ rewrite bind_raise. unfold trace, outcome. cbn [fst snd].
      apply RunStopped. exact Qa. }
  pose proof (until_from_quiet (fun b : bool => b) (download_clickable w)
                (Z.to_nat DOWNLOAD_BUTTON_TIMEOUT + 1) 0) as Qb.
  unfold WebDriverWait_until.
  destruct (until_from _ _ _ _) as [lb [kb|eb]].
  2:{ rewrite bind_ok, bind_raise. unfold trace, outcome. cbn [fst snd].
      apply RunStopped. unfold trace in *. cbn [fst] in *.
      cbn [forallb quiet_event andb]. now rewrite forallb_app, Qa, Qb. }
  pose proof (download_stage_quiet idx max_wait (dir_before w) (dir_after w)) as Qd.
  destruct (download_stage _ _ _ _) as [ld [f|ed]].
  - rewrite !bind_ok. unfold emit, trace, outcome in *. cbn [fst snd] in *.
    rewrite !app_assoc.
    apply (RunRenamed idx chunk fmt w
             (Click GENERATE_BTN_XPATH :: (la ++ lb) ++ ld) f).
    cbn [forallb quiet_event andb]. now rewrite !forallb_app, Qa, Qb, Qd.
  - rewrite bind_ok, bind_ok, bind_raise. unfold trace, outcome in *. cbn [fst snd] in *.
    apply RunStopped. cbn [forallb quiet_event andb].
    now rewrite !forallb_app, Qa, Qb, Qd.
Qed.

Lemma milestones_app (a b : list event) :
  milestones (a ++ b) = milestones a ++ milestones b.
Proof. apply flat_map_app. Qed.

Lemma milestones_quiet (waits : list event) :
  forallb quiet_event waits = true -> milestones waits = [].
Proof.
  induction waits as [|ev waits IH]; [reflexivity|]. cbn [forallb].
  intros H. apply andb_true_iff in H as [Hev Hw].
  destruct ev; try discriminate; cbn; now apply IH.
Qed.

Lemma count_quit_app (a b : list event) :
  count_quit (a ++ b) = (count_quit a + count_quit b)%nat.
Proof. unfold count_quit. now rewrite List.filter_app, length_app. Qed.

Lemma count_quit_quiet (waits : list event) :
  forallb quiet_event waits = true -> count_quit waits = 0%nat.
Proof.
  induction waits as [|ev waits IH]; [reflexivity|]. cbn [forallb].
  intros H. apply andb_true_iff in H as [Hev Hw].
  destruct ev; try discriminate; cbn; now apply IH.
Qed.

(** The loop over the chunks: it goes through all of them, or it stops in
    the first chunk that raises. *)
Lemma chunks_loop_milestones fmt max_wait w (chunks : list str) :
  forall idx,
    count_quit (trace (chunks_loop idx chunks fmt max_wait w)) = 0%nat
    /\ match outcome (chunks_loop idx chunks fmt max_wait w) with
       | Ok _ =>
           milestones (trace (chunks_loop idx chunks fmt max_wait w))
           = milestones_of idx chunks fmt
       | Raise _ =>
           exists k tail,
             (k < List.length chunks)%nat
             /\ milestones (trace (chunks_loop idx chunks fmt max_wait w))
                = milestones_of idx (firstn k chunks) fmt ++ tail
             /\ (tail = []
                 \/ exists c, nth_error chunks k = Some c /\ tail = [Submitted c])
       end.
Proof.
  induction chunks as [|chunk rest IH]; intros idx; cbn [chunks_loop].
  - split; reflexivity.
  - rewrite outcome_bind, trace_bind.
    pose proof (process_chunk_run idx chunk fmt max_wait (w idx)) as Hrun.
    destruct (IH (S idx)) as [Hq Hrest].
    destruct (process_chunk idx chunk fmt max_wait (w idx)) as [log r].
    change (trace (log, r)) with log. change (outcome (log, r)) with r.
    inversion Hrun as [e|waits e Hw|waits f Hw]; subst log r.
    + split; [reflexivity|]. exists 0%nat, []. cbn. split; [lia|]. auto.
    + rewrite app_nil_r. split.
      * change (count_quit (SetText chunk :: waits)) with (count_quit waits).
        now apply count_quit_quiet.
      * exists 0%nat, [Submitted chunk]. cbn [firstn milestones_of app List.length].
        split; [lia|]. split.
        -- change (milestones (SetText chunk :: waits))
             with (Submitted chunk :: milestones waits).
           now rewrite milestones_quiet.
        -- right. exists chunk. auto.
    + assert (Hhead : milestones (SetText chunk
                                    :: waits ++ [Rename f (ordered_name idx fmt)])
                      = [Submitted chunk; Renamed (ordered_name idx fmt)]).
      { change (milestones (SetText chunk :: waits ++ [Rename f (ordered_name idx fmt)]))
          with (Submitted chunk
                  :: milestones (waits ++ [Rename f (ordered_name idx fmt)])).
        rewrite milestones_app, milestones_quiet by exact Hw. reflexivity. }
      split.
      * rewrite count_quit_app, Hq.
        change (count_quit (SetText chunk :: waits ++ [Rename f (ordered_name idx fmt)]))
          with (count_quit (waits ++ [Rename f (ordered_name idx fmt)])).
        rewrite count_quit_app, count_quit_quiet by exact Hw. reflexivity.
      * destruct (outcome (chunks_loop (S idx) rest fmt max_wait w)) as [[]|e].
        -- rewrite milestones_app, Hhead, Hrest. reflexivity.
        -- destruct Hrest as (k & tail & Hk & Hm & Htail).
           exists (S k), tail. cbn [List.length firstn milestones_of nth_error].
           split; [lia|]. split; [|exact Htail].
           rewrite milestones_app, Hhead, Hm. reflexivity.
Qed.

Lemma trace_generate chunks fmt max_wait w :
  trace (generate_audio_chunks chunks fmt max_wait w)
  = trace (chunks_loop 1 chunks fmt max_wait w) ++ [Quit].
Proof.
  unfold generate_audio_chunks.
  now destruct (outcome_try_finally_quit (chunks_loop 1 chunks fmt max_wait w)).
Qed.

Lemma outcome_generate chunks fmt max_wait w :
  outcome (generate_audio_chunks chunks fmt max_wait w)
  = outcome (chunks_loop 1 chunks fmt max_wait w).
Proof.
  unfold generate_audio_chunks.
  now destruct (outcome_try_finally_quit (chunks_loop 1 chunks fmt max_wait w)).
Qed.

(** X8. In a run of the orchestrator that goes through, every chunk is
    put into the text area exactly once, in the order of the chunks, and
    the file of a chunk is renamed to its part name before the next chunk
    is put in. *)
Theorem chunks_in_order (chunks : list str) (fmt : string) (max_wait : Z)
  (w : nat -> chunk_world) :
  outcome (generate_audio_chunks chunks fmt max_wait w) = Ok tt ->
  milestones (trace (generate_audio_chunks chunks fmt max_wait w))
  = milestones_of 1 chunks fmt.
Proof.
  rewrite outcome_generate, trace_generate, milestones_app. intros Hok.
  destruct (chunks_loop_milestones fmt max_wait w chunks 1) as [_ H].
  rewrite Hok in H. rewrite H. apply app_nil_r.
Qed.

Lemma chunks_in_order_witness :
  milestones (trace (generate_audio_chunks [py "Hi."; py "Yo."] "mp3" 5
                       (fun _ => chunk_world_example)))
  = [Submitted (py "Hi."); Renamed "part_0001.mp3";
     Submitted (py "Yo."); Renamed "part_0002.mp3"].
Proof.
  apply (chunks_in_order [py "Hi."; py "Yo."] "mp3" 5 (fun _ => chunk_world_example)).
  vm_compute. reflexivity.
Defined.

(** X9. A run of the orchestrator that raises stops in the chunk that
    raised: the chunks before it are submitted and renamed in order, the
    chunk itself is submitted at most once and not renamed, and no later
    chunk is touched. *)
Theorem chunks_stop_at_failure (chunks : list str) (fmt : string) (max_wait : Z)
  (w : nat -> chunk_world) (e : exn) :
  outcome (generate_audio_chunks chunks fmt max_wait w) = Raise e ->
  exists k tail,
    (k < List.length chunks)%nat
    /\ milestones (trace (generate_audio_chunks chunks fmt max_wait w))
       = milestones_of 1 (firstn k chunks) fmt ++ tail
    /\ (tail = [] \/ exists c, nth_error chunks k = Some c /\ tail = [Submitted c]).
Proof.
  rewrite outcome_generate, trace_generate, milestones_app. intros Hfail.
  destruct (chunks_loop_milestones fmt max_wait w chunks 1) as [_ H].
  rewrite Hfail in H. destruct H as (k & tail & Hk & Hm & Htail).
  exists k, tail. split; [exact Hk|]. split; [|exact Htail].
  rewrite Hm. apply app_nil_r.
Qed.

(** X10. Once the browser is set up, it is released exactly once, as
    the last thing the orchestrator does, whether the loop goes through or
    raises. *)
Theorem quit_once (chunks : list str) (fmt : string) (max_wait : Z)
  (w : nat -> chunk_world) :
  exists log,
    trace (generate_audio_chunks chunks fmt max_wait w) = log ++ [Quit]
    /\ count_quit log = 0%nat.
Proof.
  exists (trace (chunks_loop 1 chunks fmt max_wait w)).
  split; [apply trace_generate|].
  apply (chunks_loop_milestones fmt max_wait w chunks 1).
Qed.

Lemma chunks_stop_at_failure_witness :
  exists k tail,
    (k < 3)%nat
    /\ milestones (trace (generate_audio_chunks [py "Hi."; py "Yo."; py "Zz."] "mp3" 5
                            second_stalls))
       = milestones_of 1 (firstn k [py "Hi."; py "Yo."; py "Zz."]) "mp3" ++ tail
    /\ (tail = []
        \/ exists c, nth_error [py "Hi."; py "Yo."; py "Zz."] k = Some c
                     /\ tail = [Submitted c]).
Proof.
  apply (chunks_stop_at_failure [py "Hi."; py "Yo."; py "Zz."] "mp3" 5 second_stalls
           (RuntimeError "Audio generation timed out for chunk 2")).
  vm_compute. reflexivity.
Defined.

(** ** The wait for the download button *)



(** ** All waiting is bounded *)

Lemma slept_app (a b : list event) : slept (a ++ b) = slept a + slept b.
Proof.
  induction a as [|ev a IH]; [reflexivity|].
  change (slept ((ev :: a) ++ b))
    with (match ev with Sleep ms => ms + slept (a ++ b) | _ => slept (a ++ b) end).
  change (slept (ev :: a))
    with (match ev with Sleep ms => ms + slept a | _ => slept a end).
  rewrite IH. destruct ev; lia.
Qed.

Lemma slept_emit_then {A} (ev : event) (m : M A) :
  slept (trace (emit ev ;; m)) = slept [ev] + slept (trace m).
Proof. rewrite emit_then. apply (slept_app [ev]). Qed.

Lemma until_from_slept {A} (method : A -> bool) (obs : nat -> A) :
  forall remaining k,
    0 <= slept (trace (until_from method obs k remaining)) <= Z.of_nat remaining * 1000.
Proof.
  induction remaining as [|r IH]; intros k; cbn [until_from].
  - change (slept (trace (@raise nat TimeoutException))) with 0. lia.
  - destruct (method (obs k)).
    + change (slept (trace (ret k))) with 0. lia.
    + rewrite slept_emit_then. change (slept [Sleep 1000]) with 1000.
      specialize (IH (S k)). lia.
Qed.

Lemma wait_from_slept (dir : nat -> listing) (known : gset string) :
  forall remaining k,
    0 <= slept (trace (wait_for_new_download_from dir known k remaining))
    <= Z.of_nat remaining * 500.
Proof.
  induction remaining as [|r IH]; intros k; cbn [wait_for_new_download_from].
  - match goal with |- context [raise ?e] =>
      change (slept (trace (@raise string e))) with 0 end. lia.
  - rewrite slept_emit_then. change (slept [ListDir]) with 0.
    destruct (elements (new_files (dir k) known)) as [|f fs].
    + rewrite slept_emit_then. change (slept [Sleep 500]) with 500.
      specialize (IH (S k)). lia.
    + match goal with |- context [ret ?x] =>
        change (slept (trace (ret x))) with 0 end. lia.
Qed.

Lemma slept_bind_le {A B} (m : M A) (k : A -> M B) (a b : Z) :
  0 <= b ->
  0 <= slept (trace m) <= a ->
  (forall x, 0 <= slept (trace (k x)) <= b) ->
  0 <= slept (trace (mbindM m k)) <= a + b.
Proof.
  intros Hb Hm Hk. rewrite trace_bind, slept_app.
  destruct (outcome m) as [x|e].
  - specialize (Hk x). lia.
  - change (slept []) with 0. lia.
Qed.

Lemma slept_lift {A} (r : result A) : slept (trace (lift r)) = 0.
Proof. reflexivity. Qed.

Lemma slept_emit (ev : event) :
  match ev with Sleep _ => False | _ => True end -> slept (trace (emit ev)) = 0.
Proof. destruct ev; intros H; try reflexivity. contradiction. Qed.

Lemma await_generation_slept idx a b c pages :
  0 <= slept (trace (await_generation idx a b c pages)) <= 301 * 1000.
Proof.
  unfold await_generation. rewrite trace_try_except_raise by now intros [].
  unfold WebDriverWait_until.
  apply (until_from_slept _ pages 301 0).
Qed.

Lemma button_wait_slept (clickable : nat -> bool) :
  0 <= slept (trace (WebDriverWait_until DOWNLOAD_BUTTON_TIMEOUT
                       (fun b : bool => b) clickable)) <= 61 * 1000.
Proof. apply (until_from_slept _ clickable 61 0). Qed.

Lemma download_stage_slept idx max_wait before dir :
  0 <= slept (trace (download_stage idx max_wait before dir))
  <= Z.max 0 max_wait * 1000.
Proof.
  unfold download_stage. cbv zeta. rewrite !slept_emit_then.
  change (slept [ListDir]) with 0.
  change (slept [Click DOWNLOAD_BTN_CLICK_XPATH]) with 0.
  rewrite trace_try_except_raise by now intros [].
  unfold wait_for_new_download.
  pose proof (wait_from_slept dir (list_to_set (listdir before))
                (Z.to_nat (2 * max_wait)) 0). lia.
Qed.

Lemma process_chunk_slept idx chunk fmt max_wait w :
  0 <= slept (trace (process_chunk idx chunk fmt max_wait w))
  <= 362000 + Z.max 0 max_wait * 1000.
Proof.
  unfold process_chunk. cbv zeta.
  replace (362000 + Z.max 0 max_wait * 1000)
    with (0 + (0 + (0 + (0 + (301 * 1000 + (61 * 1000
            + (Z.max 0 max_wait * 1000 + 0))))))) by lia.
  apply slept_bind_le; [lia | rewrite slept_lift; lia | intros _].
  apply slept_bind_le; [lia | rewrite slept_emit by exact I; lia | intros _].
  apply slept_bind_le; [lia | rewrite slept_lift; lia | intros _].
  apply slept_bind_le; [lia | rewrite slept_emit by exact I; lia | intros _].
  apply slept_bind_le; [lia | apply await_generation_slept | intros _].
  apply slept_bind_le; [lia | apply button_wait_slept | intros _].
  apply slept_bind_le; [lia | apply download_stage_slept | intros f].
  rewrite slept_emit by exact I. lia.
Qed.

Lemma chunks_loop_slept fmt max_wait w (chunks : list str) :
  forall idx,
    0 <= slept (trace (chunks_loop idx chunks fmt max_wait w))
    <= len chunks * (362000 + Z.max 0 max_wait * 1000).
Proof.
  induction chunks as [|chunk rest IH]; intros idx; cbn [chunks_loop].
  - change (slept (trace (ret tt))) with 0. unfold len. simpl. lia.
  - replace (len (chunk :: rest) * (362000 + Z.max 0 max_wait * 1000))
      with ((362000 + Z.max 0 max_wait * 1000)
            + len rest * (362000 + Z.max 0 max_wait * 1000))
      by (unfold len; cbn [List.length]; lia).
    apply slept_bind_le.
    + specialize (IH (S idx)). lia.
    + apply process_chunk_slept.
    + intros _. apply IH.
Qed.

(** X12. The long waits of the orchestrator are bounded: in the
    generation wait, the wait for the download button and the download
    wait together, a run over [n] chunks sleeps at most [n] times 362
    seconds (301 for the generation, 61 for the download button) plus
    [max_wait] seconds, whether it goes through or raises, and whatever the
    browser and the directory show. The element lookups of at most five
    seconds each (text area, Generate button) are single steps of the model
    and not counted. *)
Theorem orchestrator_sleep_bound (chunks : list str) (fmt : string)
  (max_wait : Z) (w : nat -> chunk_world) :
  0 <= slept (trace (generate_audio_chunks chunks fmt max_wait w))
  <= len chunks * (362000 + Z.max 0 max_wait * 1000).
Proof.
  rewrite trace_generate, slept_app. change (slept [Quit]) with 0.
  pose proof (chunks_loop_slept fmt max_wait w chunks 1). lia.
Qed.

(** ** Part names do not collide *)

Lemma to_uint_normal (n : nat) : Decimal.unorm (Nat.to_uint n) = Nat.to_uint n.
Proof.
  rewrite <- (DecimalNat.Unsigned.to_of (Nat.to_uint n)).
  now rewrite DecimalNat.Unsigned.of_to.
Qed.

Lemma decimal_digits (n : nat) :
  decimal n = NilEmpty.string_of_uint (Nat.to_uint n).
Proof.
  unfold decimal, NilZero.string_of_uint.
  destruct (Nat.to_uint n) eqn:E; try reflexivity.
  pose proof (to_uint_normal n) as H. rewrite E in H.
  exfalso. apply (unorm_nonnil Decimal.Nil). exact H.
Qed.

Lemma zeros_digits (k : nat) (d : Decimal.uint) :
  zeros k +:+ NilEmpty.string_of_uint d
  = NilEmpty.string_of_uint (Nat.iter k Decimal.D0 d).
Proof.
  induction k as [|k IH]; [reflexivity|].
  change (String "0" (zeros k +:+ NilEmpty.string_of_uint d)
          = String "0" (NilEmpty.string_of_uint (Nat.iter k Decimal.D0 d))).
  f_equal. exact IH.
Qed.

Lemma of_uint_zeros (k : nat) (d : Decimal.uint) :
  Nat.of_uint (Nat.iter k Decimal.D0 d) = Nat.of_uint d.
Proof.
  induction k as [|k IH]; [reflexivity|].
  change (Nat.iter (S k) Decimal.D0 d) with (Decimal.D0 (Nat.iter k Decimal.D0 d)).
  rewrite <- DecimalNat.Unsigned.of_uint_norm, unorm_D0.
  now rewrite DecimalNat.Unsigned.of_uint_norm.
Qed.

(** The index can be read back from the digits of a part name. *)
Lemma format_04d_read (n : nat) :
  option_map Nat.of_uint (NilEmpty.uint_of_string (format_04d n)) = Some n.
Proof.
  unfold format_04d. cbv zeta. rewrite decimal_digits, zeros_digits, NilEmpty.usu.
  cbn [option_map]. now rewrite of_uint_zeros, DecimalNat.Unsigned.of_to.
Qed.

Lemma list_ascii_app (a b : string) :
  list_ascii_of_string (a +:+ b) = list_ascii_of_string a ++ list_ascii_of_string b.
Proof. induction a as [|c a IH]; simpl; [reflexivity|]. now rewrite IH. Qed.

Lemma string_app_inv_tail (a b s : string) : a +:+ s = b +:+ s -> a = b.
Proof.
  intros H. apply (f_equal list_ascii_of_string) in H.
  rewrite !list_ascii_app in H. apply app_inv_tail in H.
  apply (f_equal string_of_list_ascii) in H.
  now rewrite !string_of_list_ascii_of_string in H.
Qed.

Lemma ordered_name_inj (i j : nat) (fmt : string) :
  ordered_name i fmt = ordered_name j fmt -> i = j.
Proof.
  unfold ordered_name. intros H.
  injection H as H.
  change (format_04d i +:+ ("." +:+ fmt) = format_04d j +:+ ("." +:+ fmt)) in H.
  apply string_app_inv_tail in H.
  pose proof (format_04d_read i) as Hi. rewrite H, format_04d_read in Hi.
  now injection Hi.
Qed.

(** X13. Two different chunk indices never get the same part name, for
    any number of chunks, also beyond four digits: a rename never
    overwrites the part of another chunk. *)
Theorem ordered_name_distinct (i j : nat) (fmt : string) :
  i <> j -> ordered_name i fmt <> ordered_name j fmt.
Proof. intros Hij E. apply Hij. exact (ordered_name_inj i j fmt E). Qed.

Lemma ordered_name_distinct_witness :
  ordered_name 7 "wav" <> ordered_name 12 "wav".
Proof. apply ordered_name_distinct. lia. Defined.

(** ** From the renamed parts to the final audio *)

Lemma glob_parts_permutation (l1 l2 : list string) :
  Permutation l1 l2 -> Permutation (glob_parts l1) (glob_parts l2).
Proof.
  unfold glob_parts. induction 1 as [|x l l' _ IH|x y l|l l' l'' _ IH1 _ IH2]; simpl.
  - constructor.
  - destruct (String.prefix "part_" x); [now constructor|exact IH].
  - destruct (String.prefix "part_" x), (String.prefix "part_" y);
      try apply Permutation_refl. apply perm_swap.
  - etransitivity; eauto.
Qed.

Lemma sort_glob_parts_permutation (l1 l2 : list string) :
  Permutation l1 l2 ->
  StringSort.sort (glob_parts l1) = StringSort.sort (glob_parts l2).
Proof.
  intros Hperm. apply sorted_permutation_unique.
  - apply StringSort.StronglySorted_sort, string_leb_trans.
  - apply StringSort.StronglySorted_sort, string_leb_trans.
  - etransitivity; [apply Permutation_sym, StringSort.Permuted_sort|].
    etransitivity; [apply glob_parts_permutation, Hperm|].
    apply StringSort.Permuted_sort.
Qed.

(** X14. The order in which the directory lists its files does not
    matter to the assembler: two listings of the same names give the same
    decodes in the same order and the same result. *)
Theorem concatenate_audio_listing_order {segment : Type} `{Codec segment}
  (listing1 listing2 : list string) (from_file : string -> result segment) :
  Permutation listing1 listing2 ->
  concatenate_audio listing1 from_file = concatenate_audio listing2 from_file.
Proof.
  intros Hperm. unfold concatenate_audio.
  now rewrite (sort_glob_parts_permutation _ _ Hperm).
Qed.

Lemma concatenate_audio_listing_order_witness :
  @concatenate_audio _ samples_codec
    ["part_0010.mp3"; "notes.txt"; "part_0002.mp3"; "part_0001.mp3"]%string
    from_file_example
  = @concatenate_audio _ samples_codec
      ["part_0001.mp3"; "part_0010.mp3"; "part_0002.mp3"; "notes.txt"]%string
      from_file_example.
Proof.
  apply @concatenate_audio_listing_order.
  apply perm_trans with
    (["notes.txt"; "part_0010.mp3"; "part_0002.mp3"; "part_0001.mp3"]%string);
    [apply perm_swap|].
  apply perm_trans with
    (["notes.txt"; "part_0001.mp3"; "part_0010.mp3"; "part_0002.mp3"]%string).
  - apply perm_skip.
    apply perm_trans with (["part_0010.mp3"; "part_0001.mp3"; "part_0002.mp3"]%string);
      [apply perm_skip, perm_swap | apply perm_swap].
  - apply Permutation_sym.
    change (Permutation (["part_0001.mp3"; "part_0010.mp3"; "part_0002.mp3"]%string
                           ++ ["notes.txt"%string])
              ("notes.txt"%string :: ["part_0001.mp3"; "part_0010.mp3"; "part_0002.mp3"]%string)).
    apply Permutation_sym, Permutation_cons_append.
Defined.

Lemma decode_all_stops {segment : Type} `{Codec segment}
  (from_file : string -> result segment) (seg : string -> segment)
  (pre : list string) (f : string) (post : list string) (e : exn) :
  forall combined,
    (forall g, In g pre -> from_file g = Ok (seg g)) ->
    from_file f = Raise e ->
    decode_all from_file (pre ++ f :: post) combined
    = (List.map Decode pre ++ [Decode f], Raise e).
Proof.
  induction pre as [|g pre IH]; intros combined Hok Hf; cbn [decode_all app List.map].
  - rewrite emit_then, Hf. reflexivity.
  - rewrite emit_then, (Hok g) by now left.
    unfold lift. rewrite bind_ok.
    rewrite IH by (auto; intros h Hh; apply Hok; now right). reflexivity.
Qed.

(** X15. The assembler stops at the first part, in sorted order, that
    does not decode: the parts before it are decoded, the parts after it
    are not, the error of the decoder is raised as it is and the final
    audio is not reported as written. *)
Theorem concatenate_audio_decode_error {segment : Type} `{Codec segment}
  (parts_dir : list string) (from_file : string -> result segment)
  (seg : string -> segment) (pre : list string) (f : string)
  (post : list string) (e : exn) :
  StringSort.sort (glob_parts parts_dir) = pre ++ f :: post ->
  (forall g, In g pre -> from_file g = Ok (seg g)) ->
  from_file f = Raise e ->
  concatenate_audio parts_dir from_file
  = (List.map Decode pre ++ [Decode f], Raise e).
Proof.
  intros Hfiles Hok Hf. unfold concatenate_audio. rewrite Hfiles.
  assert (Hne : truthy (pre ++ f :: post) = true) by now destruct pre.
  rewrite Hne. cbn [negb].
  rewrite (decode_all_stops from_file seg pre f post e seg_empty Hok Hf).
  apply bind_raise.
Qed.

Lemma concatenate_audio_decode_error_witness :
  @concatenate_audio _ samples_codec
    ["part_0010.mp3"; "part_0003.mp3"; "part_0001.mp3"]%string from_file_example
  = ([Decode "part_0001.mp3"; Decode "part_0003.mp3"], Raise CouldntDecodeError).
Proof.
  apply (@concatenate_audio_decode_error _ samples_codec _ from_file_example
           (fun _ => [1]) ["part_0001.mp3"%string] "part_0003.mp3"
           ["part_0010.mp3"%string] CouldntDecodeError).
  - vm_compute. reflexivity.
  - intros g [<-|[]]. reflexivity.
  - reflexivity.
Defined.





(** ** The whole run *)

Lemma vprint_then {A} (VERBOSE : bool) (m : message) (k : M A) :
  (vprint VERBOSE m ;; k) = (say VERBOSE m ++ trace k, outcome k).
Proof. destruct VERBOSE, k; reflexivity. Qed.

(** The events of the assembler: decodes and prints. *)
Lemma decode_all_events {segment : Type} `{Codec segment}
  (from_file : string -> result segment) (files : list string) :
  forall combined,
    Forall (fun ev => exists f, ev = Decode f)
      (trace (decode_all from_file files combined)).
Proof.
  induction files as [|f files IH]; intros combined; cbn [decode_all].
  - constructor.
  - rewrite emit_then. cbn [trace fst]. constructor; [eauto|].
    rewrite trace_bind. apply Forall_app. split; [constructor|].
    destruct (from_file f) as [s|e]; cbn [lift outcome snd]; [apply IH|constructor].
Qed.

Lemma concatenate_audio_events {segment : Type} `{Codec segment}
  (parts_dir : list string) (from_file : string -> result segment) :
  Forall (fun ev => match ev with Decode _ | Print _ => True | _ => False end)
    (trace (concatenate_audio parts_dir from_file)).
Proof.
  unfold concatenate_audio.
  destruct (negb (truthy (StringSort.sort (glob_parts parts_dir)))); [constructor|].
  rewrite trace_bind. apply Forall_app. split.
  - eapply List.Forall_impl; [|apply decode_all_events]. now intros ev [f ->].
  - destruct (outcome (decode_all from_file _ seg_empty)); [|constructor].
    repeat constructor.
Qed.

Lemma convert_missing {segment : Type} `{Codec segment} (a : args)
  (w : world segment) :
  input_file w = None ->
  convert a w
  = (say (negb (arg_quiet a)) InfoSwitchWindow ++ [Sleep 3000], Raise (SystemExit 2)).
Proof.
  intros Hin. unfold convert. cbv zeta. rewrite Hin.
  rewrite vprint_then, emit_then. reflexivity.
Qed.

Lemma convert_split_raise {segment : Type} `{Codec segment} (a : args)
  (w : world segment) (text : str) (e : exn) :
  input_file w = Some text ->
  split_into_chunks text (arg_chunk_size a) = Raise e ->
  convert a w
  = (say (negb (arg_quiet a)) InfoSwitchWindow ++ [Sleep 3000], Raise e).
Proof.
  intros Hin Hsplit. unfold convert. cbv zeta. rewrite Hin, Hsplit.
  rewrite vprint_then, emit_then. reflexivity.
Qed.

Lemma convert_split_ok {segment : Type} `{Codec segment} (a : args)
  (w : world segment) (text : str) (chunks : list str) :
  input_file w = Some text ->
  split_into_chunks text (arg_chunk_size a) = Ok chunks ->
  convert a w
  = (say (negb (arg_quiet a)) InfoSwitchWindow
       ++ Sleep 3000
       :: say (negb (arg_quiet a)) (InfoSplit (List.length chunks))
       ++ trace (generate_audio_chunks chunks (format_name (arg_format a))
                   (arg_max_wait a) (chunk_worlds w))
       ++ match outcome (generate_audio_chunks chunks (format_name (arg_format a))
                           (arg_max_wait a) (chunk_worlds w)) with
          | Ok _ => trace (concatenate_audio (parts_dir w) (from_file w))
          | Raise _ => []
          end,
     match outcome (generate_audio_chunks chunks (format_name (arg_format a))
                      (arg_max_wait a) (chunk_worlds w)) with
     | Ok _ => outcome (concatenate_audio (parts_dir w) (from_file w))
     | Raise e => Raise e
     end).
Proof.
  intros Hin Hsplit. unfold convert. cbv zeta. rewrite Hin, Hsplit.
  rewrite vprint_then, emit_then. unfold lift. rewrite bind_ok, vprint_then.
  cbn [trace outcome fst snd app].
  rewrite trace_bind, outcome_bind. reflexivity.
Qed.

Lemma main_parsed {segment : Type} `{Codec segment} (argv : list cli_option)
  (a : args) (w : world segment) :
  parse_args argv = Ok a ->
  main argv w
  = (run final <- convert a w; cleanup (negb (arg_quiet a)) (rmtree w) ;; ret final).
Proof.
  intros Hargs. unfold main. rewrite Hargs. unfold lift. rewrite bind_ok.
  now destruct (mbindM (convert a w) _).
Qed.

Lemma main_convert_raise {segment : Type} `{Codec segment}
  (argv : list cli_option) (a : args) (w : world segment) (e : exn) :
  parse_args argv = Ok a ->
  outcome (convert a w) = Raise e ->
  main argv w = (trace (convert a w), Raise e).
Proof.
  intros Hargs Hrun. rewrite (main_parsed _ _ _ Hargs).
  destruct (convert a w) as [log r]. cbn [outcome snd] in Hrun. subst r.
  reflexivity.
Qed.

Lemma attempts_app (a b : list event) :
  attempts (a ++ b) = (attempts a + attempts b)%nat.
Proof. unfold attempts. now rewrite List.filter_app, length_app. Qed.

Lemma attempts_say (VERBOSE : bool) (m : message) : attempts (say VERBOSE m) = 0%nat.
Proof. now destruct VERBOSE. Qed.

Lemma attempts_quiet (waits : list event) :
  forallb quiet_event waits = true -> attempts waits = 0%nat.
Proof.
  induction waits as [|ev waits IH]; [reflexivity|]. cbn [forallb].
  intros Hq. apply andb_true_iff in Hq as [Hev Hw].
  destruct ev; try discriminate; cbn; now apply IH.
Qed.

Lemma chunks_loop_attempts fmt max_wait w (chunks : list str) :
  forall idx, attempts (trace (chunks_loop idx chunks fmt max_wait w)) = 0%nat.
Proof.
  induction chunks as [|chunk rest IH]; intros idx; cbn [chunks_loop].
  - reflexivity.
  - rewrite trace_bind, attempts_app.
    pose proof (process_chunk_run idx chunk fmt max_wait (w idx)) as Hrun.
    destruct (process_chunk idx chunk fmt max_wait (w idx)) as [log r].
    change (trace (log, r)) with log. change (outcome (log, r)) with r.
    inversion Hrun as [e|waits e Hw|waits f Hw]; subst log r.
    + reflexivity.
    + change (attempts (SetText chunk :: waits)) with (attempts waits).
      now rewrite attempts_quiet.
    + change (attempts (SetText chunk :: waits ++ [Rename f (ordered_name idx fmt)]))
        with (attempts (waits ++ [Rename f (ordered_name idx fmt)])).
      rewrite attempts_app, attempts_quiet, IH by exact Hw. reflexivity.
Qed.

Lemma concatenate_audio_attempts {segment : Type} `{Codec segment}
  (parts_dir : list string) (from_file : string -> result segment) :
  attempts (trace (concatenate_audio parts_dir from_file)) = 0%nat.
Proof.
  induction (concatenate_audio_events parts_dir from_file) as [|ev l Hev _ IH];
    [reflexivity|].
  destruct ev; try contradiction; exact IH.
Qed.

(** Nothing before the cleanup removes the directory. *)
Lemma convert_attempts {segment : Type} `{Codec segment} (a : args)
  (w : world segment) :
  attempts (trace (convert a w)) = 0%nat.
Proof.
  destruct (input_file w) as [text|] eqn:Hin.
  - destruct (split_into_chunks text (arg_chunk_size a)) as [chunks|e] eqn:Hsplit.
    + rewrite (convert_split_ok a w text chunks Hin Hsplit). cbn [trace fst].
      rewrite attempts_app, attempts_say.
      change (attempts (Sleep 3000 :: ?l)) with (attempts l).
      rewrite attempts_app, attempts_say, attempts_app.
      rewrite trace_generate, attempts_app, chunks_loop_attempts.
      destruct (outcome (generate_audio_chunks _ _ _ _)).
      * now rewrite concatenate_audio_attempts.
      * reflexivity.
    + rewrite (convert_split_raise a w text e Hin Hsplit). cbn [trace fst].
      now rewrite attempts_app, attempts_say.
  - rewrite (convert_missing a w Hin). cbn [trace fst].
    now rewrite attempts_app, attempts_say.
Qed.

(** X17. When a run fails before the final audio is written (the
    splitter, a chunk or the assembler raises), [main] raises the same
    error and [shutil.rmtree] is never called: the downloaded parts stay on
    disk. *)
Theorem failed_run_keeps_parts {segment : Type} `{Codec segment}
  (argv : list cli_option) (a : args) (w : world segment) (e : exn) :
  parse_args argv = Ok a ->
  outcome (convert a w) = Raise e ->
  outcome (main argv w) = Raise e
  /\ attempts (trace (main argv w)) = 0%nat.
Proof.
  intros Hargs Hrun. rewrite (main_convert_raise argv a w e Hargs Hrun).
  split; [reflexivity|]. apply convert_attempts.
Qed.

Lemma failed_run_keeps_parts_witness :
  outcome (@main _ samples_codec [OptOut "out.mp3"] (world_of (stalled false)))
  = Raise (RuntimeError "Audio generation timed out for chunk 1")
  /\ attempts (trace (@main _ samples_codec [OptOut "out.mp3"]
                        (world_of (stalled false)))) = 0%nat.
Proof.
  apply (@failed_run_keeps_parts _ samples_codec [OptOut "out.mp3"]
           (default_args "out.mp3") (world_of (stalled false))).
  - reflexivity.
  - vm_compute. reflexivity.
Defined.

(** X18. When the input path is not a file, the run still announces the
    three seconds and sleeps them, then exits with status 2 as
    [parser.error] does: the browser is not touched, nothing is decoded,
    nothing is removed. *)
Theorem missing_input_exits {segment : Type} `{Codec segment}
  (argv : list cli_option) (a : args) (w : world segment) :
  parse_args argv = Ok a ->
  input_file w = None ->
  main argv w
  = (say (negb (arg_quiet a)) InfoSwitchWindow ++ [Sleep 3000], Raise (SystemExit 2)).
Proof.
  intros Hargs Hin.
  rewrite (main_convert_raise argv a w (SystemExit 2) Hargs);
    now rewrite (convert_missing a w Hin).
Qed.

Lemma missing_input_exits_witness :
  @main _ samples_codec [OptQuiet; OptOut "out.mp3"] missing_input
  = ([Sleep 3000], Raise (SystemExit 2)).
Proof.
  apply (@missing_input_exits _ samples_codec [OptQuiet; OptOut "out.mp3"]
           (set_option (default_args "out.mp3") OptQuiet) missing_input);
    reflexivity.
Defined.

(** X19. With [--chunk-size] of zero or below and an input that has a
    sentence with text, the run ends in the splitter, after the three
    seconds: [ValueError] for zero, [IndexError] below, and the browser is
    never driven nor closed. *)
Theorem bad_chunk_size_stops_early {segment : Type} `{Codec segment}
  (argv : list cli_option) (a : args) (w : world segment) (text : str) :
  parse_args argv = Ok a ->
  input_file w = Some text ->
  arg_chunk_size a <= 0 ->
  Exists (fun s => strip s <> []) (sentence_end_re_split text) ->
  main argv w
  = (say (negb (arg_quiet a)) InfoSwitchWindow ++ [Sleep 3000],
     Raise (if arg_chunk_size a =? 0 then ValueError else IndexError)).
Proof.
  intros Hargs Hin Hn Hex.
  assert (Hsplit : split_into_chunks text (arg_chunk_size a)
                   = Raise (if arg_chunk_size a =? 0 then ValueError else IndexError)).
  { unfold split_into_chunks.
    now rewrite (for_each_split_raise (arg_chunk_size a) _ Hn Hex). }
  rewrite (main_convert_raise argv a w
             (if arg_chunk_size a =? 0 then ValueError else IndexError) Hargs);
    now rewrite (convert_split_raise a w text _ Hin Hsplit).
Qed.

Lemma bad_chunk_size_stops_early_witness :
  @main _ samples_codec [OptOut "out.mp3"; OptChunkSize (-5)]
    (world_of chunk_world_example)
  = ([Print InfoSwitchWindow; Sleep 3000], Raise IndexError).
Proof.
  apply (@bad_chunk_size_stops_early _ samples_codec
           [OptOut "out.mp3"; OptChunkSize (-5)]
           (set_option (default_args "out.mp3") (OptChunkSize (-5)))
           (world_of chunk_world_example) (py "Hi.")).
  - reflexivity.
  - reflexivity.
  - vm_compute. discriminate.
  - apply Exists_cons_hd. vm_compute. discriminate.
Defined.

(** X20. An input file that is empty or holds whitespace only gives zero
    chunks, for every chunk size: the browser session is closed without a
    chunk submitted, and with no part in the download directory the
    assembler raises [FileNotFoundError]; the directory is not removed. *)
Theorem blank_input_no_parts {segment : Type} `{Codec segment}
  (argv : list cli_option) (a : args) (w : world segment) (text : str) :
  parse_args argv = Ok a ->
  input_file w = Some text ->
  blank text = true ->
  glob_parts (parts_dir w) = [] ->
  main argv w
  = (say (negb (arg_quiet a)) InfoSwitchWindow
       ++ Sleep 3000 :: say (negb (arg_quiet a)) (InfoSplit 0) ++ [Quit],
     Raise (FileNotFoundError "No audio parts found to concatenate")).
Proof.
  intros Hargs Hin Hblank Hparts.
  pose proof (convert_split_ok a w text [] Hin
                (split_into_chunks_blank text (arg_chunk_size a) Hblank)) as Hrun.
  assert (Hcat : concatenate_audio (parts_dir w) (from_file w)
                 = ([], Raise (FileNotFoundError "No audio parts found to concatenate"))).
  { unfold concatenate_audio. rewrite Hparts. reflexivity. }
  rewrite Hcat in Hrun. cbn in Hrun.
  rewrite (main_convert_raise argv a w
             (FileNotFoundError "No audio parts found to concatenate") Hargs);
    now rewrite Hrun.
Qed.

Lemma blank_input_no_parts_witness :
  @main _ samples_codec [OptOut "out.mp3"] empty_input
  = ([Print InfoSwitchWindow; Sleep 3000; Print (InfoSplit 0); Quit],
     Raise (FileNotFoundError "No audio parts found to concatenate")).
Proof.
  apply (@blank_input_no_parts _ samples_codec [OptOut "out.mp3"]
           (default_args "out.mp3") empty_input (py "  ")); reflexivity.
Defined.

(** ** The waiting and the messages of the whole run *)

Lemma slept_say (VERBOSE : bool) (m : message) : slept (say VERBOSE m) = 0.
Proof. now destruct VERBOSE. Qed.

Lemma concatenate_audio_slept {segment : Type} `{Codec segment}
  (parts_dir : list string) (from_file : string -> result segment) :
  slept (trace (concatenate_audio parts_dir from_file)) = 0.
Proof.
  induction (concatenate_audio_events parts_dir from_file) as [|ev l Hev _ IH];
    [reflexivity|].
  destruct ev; try contradiction; exact IH.
Qed.

Lemma cleanup_slept {A} (VERBOSE : bool) (rmtree : nat -> result unit) (k : M A) :
  slept (trace k) = 0 ->
  0 <= slept (trace (cleanup VERBOSE rmtree ;; k)) <= 4000.
Proof.
  intros Hk. rewrite trace_bind, slept_app.
  assert (Hc : 0 <= slept (trace (cleanup VERBOSE rmtree)) <= 4000).
  { unfold cleanup. cbn [cleanup_from].
    destruct (rmtree 0%nat) as [[]|e0]; [destruct VERBOSE; cbn; lia|].
    destruct (is_Exception e0); [|cbn; lia].
    destruct (rmtree 1%nat) as [[]|e1]; [destruct VERBOSE; cbn; lia|].
    destruct (is_Exception e1); [|destruct VERBOSE; cbn; lia].
    destruct (rmtree 2%nat) as [[]|e2]; [destruct VERBOSE; cbn; lia|].
    destruct (is_Exception e2); destruct VERBOSE; cbn; lia. }
  destruct (outcome (cleanup VERBOSE rmtree)); [rewrite Hk|change (slept []) with 0]; lia.
Qed.

(** X21. The sleeping of a run is bounded by the number of chunks: the
    three seconds at the start, at most 362 seconds plus [--max-wait] per
    chunk in the three long waits, and at most four seconds in the cleanup,
    whatever the browser, the directory and the removal do. The element
    lookups of at most five seconds each are single steps of the model and
    not counted. *)
Theorem run_sleep_bound {segment : Type} `{Codec segment}
  (argv : list cli_option) (a : args) (w : world segment) (text : str)
  (chunks : list str) :
  parse_args argv = Ok a ->
  input_file w = Some text ->
  split_into_chunks text (arg_chunk_size a) = Ok chunks ->
  3000 <= slept (trace (main argv w))
       <= 7000 + len chunks * (362000 + Z.max 0 (arg_max_wait a) * 1000).
Proof.
  intros Hargs Hin Hsplit. rewrite (main_parsed argv a w Hargs).
  rewrite trace_bind, slept_app.
  assert (Hconv : 3000 <= slept (trace (convert a w))
                  <= 3000 + len chunks * (362000 + Z.max 0 (arg_max_wait a) * 1000)).
  { rewrite (convert_split_ok a w text chunks Hin Hsplit). cbn [trace fst].
    rewrite slept_app, slept_say.
    change (slept (Sleep 3000 :: ?l)) with (3000 + slept l).
    rewrite slept_app, slept_say, slept_app.
    rewrite trace_generate, slept_app. change (slept [Quit]) with 0.
    pose proof (chunks_loop_slept (format_name (arg_format a)) (arg_max_wait a)
                  (chunk_worlds w) chunks 1) as Hloop.
    destruct (outcome (generate_audio_chunks _ _ _ _)).
    - rewrite concatenate_audio_slept. lia.
    - change (slept []) with 0. lia. }
  destruct (outcome (convert a w)) as [final|e].
  - pose proof (cleanup_slept (negb (arg_quiet a)) (rmtree w) (ret final) eq_refl).
    lia.
  - change (slept []) with 0. lia.
Qed.

Lemma run_sleep_bound_witness :
  3000 <= slept (trace (@main _ samples_codec [OptOut "out.mp3"; OptMaxWait 5]
                          stuck_world))
       <= 7000 + len [py "Hi."] * (362000 + Z.max 0 5 * 1000).
Proof.
  apply (@run_sleep_bound _ samples_codec [OptOut "out.mp3"; OptMaxWait 5]
           (set_option (default_args "out.mp3") (OptMaxWait 5))
           stuck_world (py "Hi.") [py "Hi."]).
  - reflexivity.
  - reflexivity.
  - vm_compute. reflexivity.
Defined.

Lemma prints_app (a b : list event) : prints (a ++ b) = prints a ++ prints b.
Proof. apply flat_map_app. Qed.

Lemma prints_quiet (waits : list event) :
  forallb quiet_event waits = true -> prints waits = [].
Proof.
  induction waits as [|ev waits IH]; [reflexivity|]. cbn [forallb].
  intros Hq. apply andb_true_iff in Hq as [Hev Hw].
  destruct ev; try discriminate; cbn; now apply IH.
Qed.

Lemma chunks_loop_prints fmt max_wait w (chunks : list str) :
  forall idx, prints (trace (chunks_loop idx chunks fmt max_wait w)) = [].
Proof.
  induction chunks as [|chunk rest IH]; intros idx; cbn [chunks_loop].
  - reflexivity.
  - rewrite trace_bind, prints_app.
    pose proof (process_chunk_run idx chunk fmt max_wait (w idx)) as Hrun.
    destruct (process_chunk idx chunk fmt max_wait (w idx)) as [log r].
    change (trace (log, r)) with log. change (outcome (log, r)) with r.
    inversion Hrun as [e|waits e Hw|waits f Hw]; subst log r.
    + reflexivity.
    + change (prints (SetText chunk :: waits)) with (prints waits).
      now rewrite prints_quiet.
    + change (prints (SetText chunk :: waits ++ [Rename f (ordered_name idx fmt)]))
        with (prints (waits ++ [Rename f (ordered_name idx fmt)])).
      rewrite prints_app, prints_quiet, IH by exact Hw. reflexivity.
Qed.

Lemma decode_all_prints {segment : Type} `{Codec segment}
  (from_file : string -> result segment) (files : list string)
  (combined : segment) :
  prints (trace (decode_all from_file files combined)) = [].
Proof.
  induction (decode_all_events from_file files combined) as [|ev l [f ->] _ IH];
    [reflexivity|exact IH].
Qed.

(** The assembler prints its one line exactly when it returns. *)
Lemma concatenate_audio_prints {segment : Type} `{Codec segment}
  (parts_dir : list string) (from_file : string -> result segment) :
  prints (trace (concatenate_audio parts_dir from_file))
  = match outcome (concatenate_audio parts_dir from_file) with
    | Ok _ => [OkWroteFinal]
    | Raise _ => []
    end.
Proof.
  unfold concatenate_audio.
  destruct (negb (truthy (StringSort.sort (glob_parts parts_dir)))); [reflexivity|].
  rewrite trace_bind, outcome_bind, prints_app, decode_all_prints.
  now destruct (outcome (decode_all from_file _ seg_empty)).
Qed.

Lemma cleanup_quiet_prints {A} (rmtree : nat -> result unit) (k : M A) :
  prints (trace k) = [] ->
  prints (trace (cleanup false rmtree ;; k)) = [].
Proof.
  intros Hk. rewrite trace_bind, prints_app.
  assert (Hc : prints (trace (cleanup false rmtree)) = []).
  { unfold cleanup. cbn [cleanup_from].
    destruct (rmtree 0%nat) as [[]|e0]; [reflexivity|].
    destruct (is_Exception e0); [|reflexivity].
    destruct (rmtree 1%nat) as [[]|e1]; [reflexivity|].
    destruct (is_Exception e1); [|reflexivity].
    destruct (rmtree 2%nat) as [[]|e2]; [reflexivity|].
    destruct (is_Exception e2); reflexivity. }
  rewrite Hc. now destruct (outcome (cleanup false rmtree)).
Qed.

Lemma convert_quiet_prints {segment : Type} `{Codec segment} (a : args)
  (w : world segment) :
  arg_quiet a = true ->
  prints (trace (convert a w))
  = match outcome (convert a w) with
    | Ok _ => [OkWroteFinal]
    | Raise _ => []
    end.
Proof.
  intros Hq.
  destruct (input_file w) as [text|] eqn:Hin.
  - destruct (split_into_chunks text (arg_chunk_size a)) as [chunks|e] eqn:Hsplit.
    + rewrite (convert_split_ok a w text chunks Hin Hsplit). rewrite Hq.
      cbn [trace outcome fst snd negb say app].
      change (prints (Sleep 3000 :: ?l)) with (prints l).
      rewrite prints_app, trace_generate, prints_app, chunks_loop_prints.
      destruct (outcome (generate_audio_chunks _ _ _ _)).
      * apply concatenate_audio_prints.
      * reflexivity.
    + rewrite (convert_split_raise a w text e Hin Hsplit). now rewrite Hq.
  - rewrite (convert_missing a w Hin). now rewrite Hq.
Qed.

(** X22. Under [--quiet] the program prints, of its own messages
    ([print] and [vprint]), one line at most: the line that the final audio
    is written, which goes through [print] and not through [vprint],
    exactly when the final audio was written; a run that fails before
    prints nothing, and neither does the cleanup. *)
Theorem quiet_run_prints {segment : Type} `{Codec segment}
  (argv : list cli_option) (a : args) (w : world segment) :
  parse_args argv = Ok a ->
  arg_quiet a = true ->
  prints (trace (main argv w))
  = match outcome (convert a w) with
    | Ok _ => [OkWroteFinal]
    | Raise _ => []
    end.
Proof.
  intros Hargs Hq. rewrite (main_parsed argv a w Hargs).
  rewrite trace_bind, prints_app, (convert_quiet_prints a w Hq), Hq.
  destruct (outcome (convert a w)) as [final|e]; [|reflexivity].
  cbn [negb]. now rewrite (cleanup_quiet_prints (rmtree w) (ret final)).
Qed.

Lemma quiet_run_prints_witness :
  prints (trace (@main _ samples_codec [OptQuiet; OptOut "out.mp3"] stuck_world))
  = [OkWroteFinal].
Proof.
  apply (@quiet_run_prints _ samples_codec [OptQuiet; OptOut "out.mp3"]
           (set_option (default_args "out.mp3") OptQuiet) stuck_world);
    reflexivity.
Defined.

(** ** A download wait of no length *)

Lemma download_stage_no_wait idx max_wait before dir :
  max_wait <= 0 ->
  download_stage idx max_wait before dir
  = ([ListDir; Click DOWNLOAD_BTN_CLICK_XPATH],
     Raise (RuntimeError ("Timed out waiting for download for chunk " +:+ decimal idx))).
Proof.
  intros Hw. unfold download_stage, wait_for_new_download. cbv zeta.
  replace (Z.to_nat (2 * max_wait)) with 0%nat by lia.
  reflexivity.
Qed.

Lemma process_chunk_no_wait idx chunk fmt max_wait w :
  max_wait <= 0 ->
  outcome (process_chunk idx chunk fmt max_wait w) <> Ok tt.
Proof.
  intros Hw. unfold process_chunk. cbv zeta.
  repeat (rewrite outcome_bind;
          match goal with
          | |- context [outcome ?m] =>
              lazymatch m with
              | mbindM _ _ => fail
              | download_stage _ _ _ _ => fail
              | _ => destruct (outcome m); [|discriminate]
              end
          end).
  rewrite (download_stage_no_wait _ _ _ _ Hw). discriminate.
Qed.

Lemma renamed_quiet (waits : list event) :
  forallb quiet_event waits = true -> renamed waits = [].
Proof.
  induction waits as [|ev waits IH]; [reflexivity|]. cbn [forallb].
  intros Hq. apply andb_true_iff in Hq as [Hev Hw].
  destruct ev; try discriminate; cbn; now apply IH.
Qed.

(** X23. With [--max-wait] of zero or below no chunk can go through: the
    download wait gives up before it looks at the directory, so a run over
    at least one chunk always raises in the first chunk and no file is ever
    renamed to a part, whatever the browser and the directory show. *)
Theorem no_part_without_wait (chunks : list str) (fmt : string) (max_wait : Z)
  (w : nat -> chunk_world) :
  max_wait <= 0 ->
  chunks <> [] ->
  renamed (trace (generate_audio_chunks chunks fmt max_wait w)) = []
  /\ exists e, outcome (generate_audio_chunks chunks fmt max_wait w) = Raise e.
Proof.
  intros Hw Hne. destruct chunks as [|chunk rest]; [contradiction|].
  rewrite trace_generate, outcome_generate, renamed_app. cbn [chunks_loop].
  rewrite trace_bind, outcome_bind, renamed_app.
  pose proof (process_chunk_run 1 chunk fmt max_wait (w 1%nat)) as Hrun.
  pose proof (process_chunk_no_wait 1 chunk fmt max_wait (w 1%nat) Hw) as Hno.
  destruct (process_chunk 1 chunk fmt max_wait (w 1%nat)) as [log r].
  change (trace (log, r)) with log in *. change (outcome (log, r)) with r in *.
  inversion Hrun as [e|waits e Hq|waits f Hq]; subst log r.
  - split; [reflexivity|eauto].
  - split; [|eauto].
    change (renamed (SetText chunk :: waits)) with (renamed waits).
    now rewrite renamed_quiet.
  - now elim Hno.
Qed.

Lemma no_part_without_wait_witness :
  renamed (trace (generate_audio_chunks [py "Hi."; py "Yo."] "mp3" 0
                    (fun _ => chunk_world_example))) = []
  /\ exists e, outcome (generate_audio_chunks [py "Hi."; py "Yo."] "mp3" 0
                          (fun _ => chunk_world_example)) = Raise e.
Proof.
  apply (no_part_without_wait [py "Hi."; py "Yo."] "mp3" 0
           (fun _ => chunk_world_example)).
  - lia.
  - discriminate.
Defined.
